(** * Rule engine with AST: tokenizer, shunting-yard parser, serialization,
    evaluator and rule combinator.

    Shallow embedding of [rule_engine/rule_engine.py] and of [json_to_node]
    from [app.py].  Python [str] values are Rocq strings whose characters are
    read as the code points 0..255; Python lists used as stacks are Rocq
    lists whose head is the top of the stack; a call either returns, [Ok],
    or raises an exception of the type [exn], [Raise]. *)

From Stdlib Require Import ZArith Ascii String List Bool Lia.
From Stdlib Require Import Floats.SpecFloat.
From stdpp Require Import base option gmap strings list.
Import ListNotations.

Set Warnings "-register-all".

Local Open Scope string_scope.
Local Open Scope list_scope.

(** ** Characters *)

Module Chr.

Definition code (c : ascii) : nat := nat_of_ascii c.

Definition between (lo hi : nat) (c : ascii) : bool :=
  (lo <=? code c)%nat && (code c <=? hi)%nat.

(** [str.isspace] and the regex class [\s] on the code points below 256:
    U+0009..U+000D, U+001C..U+0020, U+0085 and U+00A0. *)
Definition is_space (c : ascii) : bool :=
  between 9 13 c || between 28 32 c || (code c =? 133)%nat || (code c =? 160)%nat.

(** [\d]: the only decimal digits below 256 are 0 to 9. *)
Definition is_digit (c : ascii) : bool := between 48 57 c.

Definition is_upper (c : ascii) : bool := between 65 90 c.
Definition is_lower (c : ascii) : bool := between 97 122 c.

(** [[a-zA-Z_]] *)
Definition ident_start (c : ascii) : bool :=
  is_lower c || is_upper c || Ascii.eqb c "_".

(** [[a-zA-Z0-9_.]] *)
Definition ident_char (c : ascii) : bool :=
  is_lower c || is_upper c || is_digit c || Ascii.eqb c "_" || Ascii.eqb c ".".

(** [[()<>!=]] *)
Definition paren_or_cmp (c : ascii) : bool :=
  Ascii.eqb c "(" || Ascii.eqb c ")" || Ascii.eqb c "<" || Ascii.eqb c ">"
  || Ascii.eqb c "!" || Ascii.eqb c "=".

(** [[<>!=]] *)
Definition cmp_char (c : ascii) : bool :=
  Ascii.eqb c "<" || Ascii.eqb c ">" || Ascii.eqb c "!" || Ascii.eqb c "=".

Definition squote : ascii := "'".
Definition dquote : ascii := ascii_of_nat 34.
Definition newline : ascii := ascii_of_nat 10.

Definition only (a : ascii) (c : ascii) : bool := Ascii.eqb c a.
Definition except (a : ascii) (c : ascii) : bool := negb (Ascii.eqb c a).

End Chr.

(** ** Regular expressions

    The fragment of Python's [re] syntax that the program uses, with the
    matching order of a backtracking engine: alternatives are tried left to
    right, [?], [*] and [+] are greedy, [*?] is lazy.  Every repetition in
    the program's patterns is over a single character class. *)

Inductive regex : Type :=
  | Cls (p : ascii -> bool)
  | Seq (r1 r2 : regex)
  | Alt (r1 r2 : regex)
  | Opt (r : regex)
  | Star (p : ascii -> bool)
  | LazyStar (p : ascii -> bool).

Definition Lit (a : ascii) : regex := Cls (Chr.only a).
Definition Plus (p : ascii -> bool) : regex := Seq (Cls p) (Star p).

Fixpoint Word (w : string) : regex :=
  match w with
  | EmptyString => Opt (Cls (fun _ => false))
  | String a EmptyString => Lit a
  | String a w' => Seq (Lit a) (Word w')
  end.

Section Matcher.
Context {A : Type}.

(** [p*] followed by the continuation [k]: longest run first. *)
Fixpoint star_greedy (p : ascii -> bool) (s : string)
    (k : string -> option A) : option A :=
  match s with
  | String c s' =>
      if p c then
        match star_greedy p s' k with
        | Some x => Some x
        | None => k s
        end
      else k s
  | EmptyString => k s
  end.

(** [p*?] followed by the continuation [k]: shortest run first. *)
Fixpoint star_lazy (p : ascii -> bool) (s : string)
    (k : string -> option A) : option A :=
  match k s with
  | Some x => Some x
  | None =>
      match s with
      | String c s' => if p c then star_lazy p s' k else None
      | EmptyString => None
      end
  end.

(** [re_k r s k]: match [r] at the start of [s] and hand the text that is
    left to [k]; when [k] fails the next way of matching [r] is tried. *)
Fixpoint re_k (r : regex) (s : string) (k : string -> option A) : option A :=
  match r with
  | Cls p =>
      match s with
      | String c s' => if p c then k s' else None
      | EmptyString => None
      end
  | Seq r1 r2 => re_k r1 s (fun s1 => re_k r2 s1 k)
  | Alt r1 r2 =>
      match re_k r1 s k with
      | Some x => Some x
      | None => re_k r2 s k
      end
  | Opt r1 =>
      match re_k r1 s k with
      | Some x => Some x
      | None => k s
      end
  | Star p => star_greedy p s k
  | LazyStar p => star_lazy p s k
  end.
End Matcher.

(** [re.match(r, s)]: the text left after the match, [None] when there is
    no match. *)
Definition re_match (r : regex) (s : string) : option string :=
  re_k r s Some.

(** The text of [s] in front of its suffix [rest]. *)
Definition consumed (s rest : string) : string :=
  substring 0 (String.length s - String.length rest) s.

(** [re.split(r, s)] for a pattern [r] that is one capturing group and never
    matches the empty string: the text between the matches alternates with
    the matched spans, [gap0, m1, gap1, ..., mk, gapk].  [gap] is the text
    passed over since the last match; every step shortens [s], so the
    length of the text is fuel enough and the case of no fuel is never
    reached from [re_split]. *)
Fixpoint re_split_from (fuel : nat) (r : regex) (s gap : string) : list string :=
  match fuel, s with
  | _, EmptyString => [gap]
  | O, _ => [gap +:+ s]
  | S fuel', String c s' =>
      match re_match r s with
      | Some rest =>
          if (String.length rest <? String.length s)%nat
          then gap :: consumed s rest :: re_split_from fuel' r rest ""
          else re_split_from fuel' r s' (gap +:+ String c "")
      | None => re_split_from fuel' r s' (gap +:+ String c "")
      end
  end.

Definition re_split (r : regex) (s : string) : list string :=
  re_split_from (String.length s) r s "".

(** ** Python string helpers *)

Fixpoint lstrip (s : string) : string :=
  match s with
  | String c s' => if Chr.is_space c then lstrip s' else s
  | EmptyString => EmptyString
  end.

Fixpoint rstrip (s : string) : string :=
  match s with
  | String c s' =>
      match rstrip s' with
      | EmptyString => if Chr.is_space c then EmptyString else String c EmptyString
      | t => String c t
      end
  | EmptyString => EmptyString
  end.

(** [s.strip()] *)
Definition strip (s : string) : string := rstrip (lstrip s).

(** Truth value of a [str]. *)
Definition nonempty (s : string) : bool :=
  match s with EmptyString => false | _ => true end.

(** ** Tokenizer *)

(** [[a-zA-Z_][a-zA-Z0-9_.]*] *)
Definition ident_pattern : regex := Seq (Cls Chr.ident_start) (Star Chr.ident_char).

(** A single-quoted run without single quote inside, or the same with the
    double quote. *)
Definition quoted_pattern : regex :=
  Alt (Seq (Lit Chr.squote) (Seq (Star (Chr.except Chr.squote)) (Lit Chr.squote)))
      (Seq (Lit Chr.dquote) (Seq (Star (Chr.except Chr.dquote)) (Lit Chr.dquote))).

(** The alternatives of the pattern of [tokenize] after the white space:
    [AND], [OR], [[()<>!=]=?], an identifier, a quoted run. *)
Definition lexeme_pattern : regex :=
  Alt (Word "AND")
 (Alt (Word "OR")
 (Alt (Seq (Cls Chr.paren_or_cmp) (Opt (Lit "=")))
 (Alt ident_pattern quoted_pattern))).

(** The pattern of [tokenize], one group of seven alternatives: [\s+] and
    the six of [lexeme_pattern]. *)
Definition token_pattern : regex := Alt (Plus Chr.is_space) lexeme_pattern.

Definition tokenize (rule_string : string) : list string :=
  filter (fun token => nonempty (strip token) = true) (re_split token_pattern rule_string).

(** ** Exceptions and results *)

(** The exception classes the program can raise.  [ValueError] carries
    [str(e)]; the other classes are never caught by class in the core and
    carry nothing. *)
Inductive exn : Type :=
  | ValueError (msg : string)
  | IndexError
  | TypeError
  | AttributeError.

Inductive result (A : Type) : Type :=
  | Ok (a : A)
  | Raise (e : exn).
Arguments Ok {A} a.
Arguments Raise {A} e.

#[global] Instance result_ret : MRet result := fun A a => Ok a.
#[global] Instance result_bind : MBind result := fun A B f m =>
  match m with
  | Ok a => f a
  | Raise e => Raise e
  end.

(** ** Values

    What a decoded JSON payload can hold: the values of a record, and the
    attribute maps a tree is serialized to. *)
Inductive pyval : Type :=
  | VNone
  | VBool (b : bool)
  | VInt (z : Z)
  | VFloat (f : spec_float)
  | VStr (s : string)
  | VList (l : list pyval)
  | VDict (d : gmap string pyval).

(** Truth value of an object, as tested by [if x]. *)
Definition truthy (v : pyval) : bool :=
  match v with
  | VNone => false
  | VBool b => b
  | VInt z => negb (z =? 0)%Z
  | VFloat (S754_zero _) => false
  | VFloat _ => true
  | VStr s => nonempty s
  | VList l => match l with [] => false | _ => true end
  | VDict d => negb (bool_decide (d = ∅))
  end.

(** [x == s] for a string literal [s]. *)
Definition eq_str (x : pyval) (s : string) : bool :=
  match x with
  | VStr t => String.eqb t s
  | _ => false
  end.

(** [sub in s] on strings. *)
Fixpoint contains (sub s : string) : bool :=
  String.prefix sub s ||
  match s with
  | String _ s' => contains sub s'
  | EmptyString => false
  end.

(** ** AST nodes *)

Inductive Node : Type :=
  mkNode { node_type : pyval; value : pyval; left : option Node; right : option Node }.

(** [Node.to_dict].  A [Node] object has neither [__bool__] nor [__len__],
    so [if self.left] holds exactly when the child is not [None]. *)
Fixpoint to_dict (self : Node) : gmap string pyval :=
  match self with
  | mkNode ty v l r =>
      let node_dict : gmap string pyval := <["node_type" := ty]> (<["value" := v]> ∅) in
      let node_dict :=
        match l with
        | Some n => <["left" := VDict (to_dict n)]> node_dict
        | None => node_dict
        end in
      match r with
      | Some n => <["right" := VDict (to_dict n)]> node_dict
      | None => node_dict
      end
  end.

(** ['node_type' not in data or 'value' not in data], for the kinds of
    object [data] can be; [None] when the membership test itself raises
    [TypeError]. *)
Definition lacks_required (data : pyval) : option bool :=
  match data with
  | VDict d =>
      Some (negb (bool_decide (is_Some (d !! "node_type")))
            || negb (bool_decide (is_Some (d !! "value"))))
  | VStr s => Some (negb (contains "node_type" s) || negb (contains "value" s))
  | VList l =>
      Some (negb (existsb (fun x => eq_str x "node_type") l)
            || negb (existsb (fun x => eq_str x "value") l))
  | _ => None
  end.

Definition missing_keys_msg : string :=
  "Invalid AST data: 'node_type' and 'value' are required".

(** [json_to_node] of [app.py].  The recursive calls go through the
    children of the map: [sub] pairs every entry with its truth value and
    its own deserialization, and only the entries [left] and [right] are
    ever looked at (see [json_to_node_dict] for the direct equation). *)
Fixpoint json_to_node (data : pyval) : result Node :=
  match lacks_required data with
  | None => Raise TypeError
  | Some true => Raise (ValueError missing_keys_msg)
  | Some false =>
      match data with
      | VDict d =>
          let sub := (fun v => (truthy v, json_to_node v)) <$> d in
          let child (k : string) : result (option Node) :=
            match sub !! k with
            | Some (true, r) => n ← r; Ok (Some n)
            | _ => Ok None
            end in
          left_node ← child "left";
          right_node ← child "right";
          match d !! "node_type", d !! "value" with
          | Some ty, Some v => Ok (mkNode ty v left_node right_node)
          | _, _ => Raise (ValueError missing_keys_msg)
          end
      | _ => Raise AttributeError
      end
  end.

(** ** Parser *)

Definition operator_node (op : string) (l r : Node) : Node :=
  mkNode (VStr "operator") (VStr op) (Some l) (Some r).

Definition operand_node (condition : string) : Node :=
  mkNode (VStr "operand") (VStr condition) None None.

(** [precedence = {'AND': 1, 'OR': 0}] *)
Definition precedence : gmap string Z := <["AND" := 1%Z]> (<["OR" := 0%Z]> ∅).

(** [[<>!=]+] *)
Definition cmp_run_pattern : regex := Plus Chr.cmp_char.

Definition matches (r : regex) (s : string) : bool :=
  match re_match r s with Some _ => true | None => false end.

(** The loop of the closing parenthesis, followed by [operators.pop()],
    which raises [IndexError] on an empty stack. *)
Fixpoint close_paren (operators : list string) (output : list Node)
    : result (list string * list Node) :=
  match operators with
  | [] => Raise IndexError
  | op :: operators' =>
      if String.eqb op "(" then Ok (operators', output)
      else
        match output with
        | r :: l :: output' =>
            close_paren operators' (operator_node op l r :: output')
        | _ => Raise (ValueError "Incomplete expression before closing parenthesis")
        end
  end.

(** The loop run on an incoming [AND] or [OR] of precedence [p]: operators
    of precedence at least [p] on top of the stack are reduced first. *)
Fixpoint pop_operators (p : Z) (operators : list string) (output : list Node)
    : result (list string * list Node) :=
  match operators with
  | [] => Ok ([], output)
  | op :: operators' =>
      match precedence !! op with
      | Some q =>
          if (p <=? q)%Z then
            match output with
            | r :: l :: output' =>
                pop_operators p operators' (operator_node op l r :: output')
            | _ => Raise (ValueError "Incomplete expression during operator processing")
            end
          else Ok (operators, output)
      | None => Ok (operators, output)
      end
  end.

(** The loop after the last token: every operator left is reduced,
    whatever it is. *)
Fixpoint collapse (operators : list string) (output : list Node)
    : result (list Node) :=
  match operators with
  | [] => Ok output
  | op :: operators' =>
      match output with
      | r :: l :: output' => collapse operators' (operator_node op l r :: output')
      | _ => Raise (ValueError "Incomplete expression at end of parsing")
      end
  end.

Definition invalid_token_msg (token : string) : string :=
  "Invalid token or incomplete expression: '" +:+ token +:+ "'".

(** The main loop; [tokens] is [tokens[i:]]. *)
Fixpoint parse_loop (tokens : list string) (output : list Node)
    (operators : list string) : result (list Node * list string) :=
  match tokens with
  | [] => Ok (output, operators)
  | token :: rest =>
      if String.eqb token "(" then parse_loop rest output (token :: operators)
      else if String.eqb token ")" then
        match close_paren operators output with
        | Ok (operators', output') => parse_loop rest output' operators'
        | Raise e => Raise e
        end
      else
        match precedence !! token with
        | Some p =>
            match pop_operators p operators output with
            | Ok (operators', output') => parse_loop rest output' (token :: operators')
            | Raise e => Raise e
            end
        | None =>
            if matches ident_pattern token then
              match rest with
              | t1 :: t2 :: rest' =>
                  if matches cmp_run_pattern t1 then
                    let condition := token +:+ " " +:+ t1 +:+ " " +:+ t2 in
                    parse_loop rest' (operand_node condition :: output) operators
                  else Raise (ValueError (invalid_token_msg token))
              | _ => Raise (ValueError (invalid_token_msg token))
              end
            else Raise (ValueError (invalid_token_msg token))
        end
  end.

Definition parse (tokens : list string) : result Node :=
  '(output, operators) ← parse_loop tokens [] [];
  output ← collapse operators output;
  match output with
  | [ast] => Ok ast
  | _ => Raise (ValueError "Invalid expression: check operator and operand count.")
  end.

(** ** Compiling and combining rules *)

(** [create_rule].  [parse] never returns [None], and the handler rewraps
    a [ValueError] only: any other exception passes through. *)
Definition create_rule (rule_string : string) : result Node :=
  if negb (nonempty rule_string) then
    Raise (ValueError "rule_string must not be null or empty")
  else
    let tokens := tokenize rule_string in
    match tokens with
    | [] => Raise (ValueError "rule_string did not produce any tokens")
    | _ =>
        match parse tokens with
        | Ok ast => Ok ast
        | Raise (ValueError e) => Raise (ValueError ("Error parsing rule: " +:+ e))
        | Raise e => Raise e
        end
    end.

(** The loop of [combine_rules]: [printed] collects the lines written to the
    standard output, in order. *)
Fixpoint combine_loop (rules : list string) (combined_ast : option Node)
    (printed : list string) : list string * result (option Node) :=
  match rules with
  | [] => (printed, Ok combined_ast)
  | rule :: rules' =>
      match create_rule rule with
      | Ok rule_ast =>
          match combined_ast with
          | None => combine_loop rules' (Some rule_ast) printed
          | Some acc => combine_loop rules' (Some (operator_node "OR" acc rule_ast)) printed
          end
      | Raise (ValueError e) =>
          combine_loop rules' combined_ast
            (printed ++ ["Error processing rule '" +:+ rule +:+ "': " +:+ e])
      | Raise e => (printed, Raise e)
      end
  end.

Definition combine_rules (rules : list string) : list string * result (option Node) :=
  match rules with
  | [] => ([], Ok None)
  | _ => combine_loop rules None []
  end.

(** ** Conversions of the built-in types *)

(** Whitespace skipped by [int()] and [float()] around their argument:
    the ASCII white space and, of the other code points below 256, U+0085
    and U+00A0.  (U+001C..U+001F are white space for [str.strip] and [\s],
    not here.) *)
Definition conv_space (c : ascii) : bool :=
  Chr.between 9 13 c || (Chr.code c =? 32)%nat || (Chr.code c =? 133)%nat
  || (Chr.code c =? 160)%nat.

Fixpoint drop_while (p : ascii -> bool) (s : string) : string :=
  match s with
  | String c s' => if p c then drop_while p s' else s
  | EmptyString => EmptyString
  end.

Fixpoint drop_while_end (p : ascii -> bool) (s : string) : string :=
  match s with
  | String c s' =>
      match drop_while_end p s' with
      | EmptyString => if p c then EmptyString else String c EmptyString
      | t => String c t
      end
  | EmptyString => EmptyString
  end.

Definition conv_strip (s : string) : string :=
  drop_while_end conv_space (drop_while conv_space s).

Definition hex_digit (n : nat) : ascii :=
  if (n <? 10)%nat then ascii_of_nat (48 + n) else ascii_of_nat (87 + n).

Definition backslash : ascii := ascii_of_nat 92.

(** Code points that [repr] writes as they are. *)
Definition printable (c : ascii) : bool :=
  (Chr.between 32 126 c || Chr.between 161 255 c) && negb (Chr.code c =? 173)%nat.

Definition repr_char (quote c : ascii) : string :=
  if Ascii.eqb c backslash then String backslash (String backslash "")
  else if Ascii.eqb c quote then String backslash (String quote "")
  else if (Chr.code c =? 9)%nat then String backslash "t"
  else if (Chr.code c =? 10)%nat then String backslash "n"
  else if (Chr.code c =? 13)%nat then String backslash "r"
  else if printable c then String c ""
  else String backslash
         (String "x" (String (hex_digit (Chr.code c / 16))
                        (String (hex_digit (Chr.code c mod 16)) ""))).

Fixpoint repr_body (quote : ascii) (s : string) : string :=
  match s with
  | String c s' => repr_char quote c +:+ repr_body quote s'
  | EmptyString => EmptyString
  end.

Fixpoint has_char (a : ascii) (s : string) : bool :=
  match s with
  | String c s' => Ascii.eqb c a || has_char a s'
  | EmptyString => false
  end.

(** [repr(s)] of a [str]. *)
Definition repr (s : string) : string :=
  let quote :=
    if has_char Chr.squote s && negb (has_char Chr.dquote s)
    then Chr.dquote else Chr.squote in
  String quote (repr_body quote s +:+ String quote "").

(** A run of decimal digits in which single underscores may separate
    digits: the digits read and the text left. *)
Fixpoint scan_digits (after_digit : bool) (s : string) : string * string :=
  match s with
  | String c s' =>
      if Chr.is_digit c then
        let '(ds, rest) := scan_digits true s' in (String c ds, rest)
      else if Ascii.eqb c "_" && after_digit
              && match s' with String d _ => Chr.is_digit d | EmptyString => false end
      then scan_digits false s'
      else (EmptyString, s)
  | EmptyString => (EmptyString, EmptyString)
  end.

Fixpoint digits_value (acc : Z) (ds : string) : Z :=
  match ds with
  | String c ds' => digits_value (10 * acc + Z.of_nat (Chr.code c - 48))%Z ds'
  | EmptyString => acc
  end.

(** An optional sign: whether it is a minus, and the text after it. *)
Definition scan_sign (s : string) : bool * string :=
  match s with
  | String c s' =>
      if Ascii.eqb c "-" then (true, s')
      else if Ascii.eqb c "+" then (false, s')
      else (false, s)
  | EmptyString => (false, s)
  end.

(** [int(s)] in base 10.  Integers are unbounded; an interpreter's
    configurable cap on the number of digits converted is left out. *)
Definition py_int (s : string) : result Z :=
  let '(neg, t) := scan_sign (conv_strip s) in
  match scan_digits false t with
  | (String c ds, EmptyString) =>
      let n := digits_value 0 (String c ds) in
      Ok (if neg then (- n)%Z else n)
  | _ => Raise (ValueError ("invalid literal for int() with base 10: " +:+ repr s))
  end.

(** The binary64 number nearest to [m * 10^e] (ties to even), with sign. *)
Definition decimal_to_float (neg : bool) (m e : Z) : spec_float :=
  match (m * 10 ^ Z.max e 0)%Z, (10 ^ Z.max (- e) 0)%Z with
  | Zpos n, Zpos d =>
      SFdiv 53 1024 (S754_finite neg n 0) (S754_finite false d 0)
  | _, _ => S754_zero neg
  end.

(** [float(s)] for a string that holds a dot (so neither [inf] nor [nan]
    can be what it spells). *)
Definition py_float (s : string) : result spec_float :=
  let bad := Raise (ValueError ("could not convert string to float: " +:+ repr s)) in
  let '(neg, t) := scan_sign (conv_strip s) in
  let '(ip, r1) := scan_digits false t in
  let '(fp, r2) :=
    match r1 with
    | String "." r => scan_digits false r
    | _ => (EmptyString, r1)
    end in
  if negb (nonempty (ip +:+ fp)) then bad
  else
    let mant := digits_value 0 (ip +:+ fp) in
    let shift := Z.of_nat (String.length fp) in
    match r2 with
    | EmptyString => Ok (decimal_to_float neg mant (- shift))
    | String c r =>
        if Ascii.eqb c "e" || Ascii.eqb c "E" then
          let '(eneg, r') := scan_sign r in
          match scan_digits false r' with
          | (String d ds, EmptyString) =>
              let ex := digits_value 0 (String d ds) in
              Ok (decimal_to_float neg mant ((if eneg then - ex else ex) - shift))
          | _ => bad
          end
        else bad
    end.

(** ** Comparisons *)

(** The value of a number, exactly: [m * 2^e], an infinity, or not a number. *)
Inductive number : Type :=
  | NNan
  | NInf (neg : bool)
  | NFin (m e : Z).

Definition number_of_float (f : spec_float) : number :=
  match f with
  | S754_zero _ => NFin 0 0
  | S754_infinity s => NInf s
  | S754_nan => NNan
  | S754_finite s m e => NFin (if s then Zneg m else Zpos m) e
  end.

(** [isinstance(x, (int, float))]: [bool] is a subclass of [int]. *)
Definition numeric (x : pyval) : option number :=
  match x with
  | VBool b => Some (NFin (if b then 1 else 0) 0)
  | VInt z => Some (NFin z 0)
  | VFloat f => Some (number_of_float f)
  | _ => None
  end.

Inductive order : Type :=
  | Less | Equal | Greater
  | Unordered   (* a NaN is involved: only [!=] holds *)
  | NoOrder.    (* kinds without a common order: [==] is false, [<] raises *)

Definition order_of (c : comparison) : order :=
  match c with Lt => Less | Eq => Equal | Gt => Greater end.

Definition number_order (x y : number) : order :=
  match x, y with
  | NNan, _ | _, NNan => Unordered
  | NInf a, NInf b => if Bool.eqb a b then Equal else if a then Less else Greater
  | NInf a, NFin _ _ => if a then Less else Greater
  | NFin _ _, NInf b => if b then Greater else Less
  | NFin m1 e1, NFin m2 e2 =>
      let e := Z.min e1 e2 in
      order_of (m1 * 2 ^ (e1 - e) ?= m2 * 2 ^ (e2 - e))%Z
  end.

(** What the condition's literal has become after coercion. *)
Inductive literal : Type :=
  | LInt (z : Z)
  | LFloat (f : spec_float)
  | LStr (s : string).

(** How a record value compares with a literal. *)
Definition py_order (x : pyval) (y : literal) : order :=
  match numeric x, y with
  | Some n, LInt z => number_order n (NFin z 0)
  | Some n, LFloat f => number_order n (number_of_float f)
  | None, LStr s =>
      match x with
      | VStr t => order_of (String.compare t s)
      | _ => NoOrder
      end
  | _, _ => NoOrder
  end.

Definition is_gt (o : order) : result bool :=
  match o with Greater => Ok true | NoOrder => Raise TypeError | _ => Ok false end.
Definition is_lt (o : order) : result bool :=
  match o with Less => Ok true | NoOrder => Raise TypeError | _ => Ok false end.
Definition is_eq (o : order) : result bool :=
  match o with Equal => Ok true | _ => Ok false end.
Definition is_ne (o : order) : result bool :=
  match o with Equal => Ok false | _ => Ok true end.
Definition is_ge (o : order) : result bool :=
  match o with Greater | Equal => Ok true | NoOrder => Raise TypeError | _ => Ok false end.
Definition is_le (o : order) : result bool :=
  match o with Less | Equal => Ok true | NoOrder => Raise TypeError | _ => Ok false end.

(** The table [operators] of [evaluate_condition], each lambda read on the
    order of its two arguments. *)
Definition operators : gmap string (order -> result bool) :=
  <[">" := is_gt]> (<["<" := is_lt]> (<["==" := is_eq]> (<["!=" := is_ne]>
  (<[">=" := is_ge]> (<["<=" := is_le]> ∅))))).

(** ** Condition evaluator *)

Definition not_newline (c : ascii) : bool := negb (Ascii.eqb c Chr.newline).

(** [[<>!=]=?] *)
Definition comparator_pattern : regex := Seq (Cls Chr.cmp_char) (Opt (Lit "=")).

(** [\d+(\.\d+)?] *)
Definition number_pattern : regex :=
  Seq (Plus Chr.is_digit) (Opt (Seq (Lit ".") (Plus Chr.is_digit))).

(** A quote [q], a lazy run [.*?] without newline, and [q] again. *)
Definition lazy_quoted (q : ascii) : regex :=
  Seq (Lit q) (Seq (LazyStar not_newline) (Lit q)).

(** The third group: a number, or a quoted run in single or in double
    quotes. *)
Definition literal_pattern : regex :=
  Alt number_pattern (Alt (lazy_quoted Chr.squote) (lazy_quoted Chr.dquote)).

(** [re.match(pattern, operand)] for the pattern of [evaluate_condition],
    group 1, [\s*], group 2, [\s*], group 3: the three groups and the text
    left after the match. *)
Definition condition_match (operand : string)
    : option (string * string * string * string) :=
  re_k ident_pattern operand (fun s1 =>
  re_k (Star Chr.is_space) s1 (fun s2 =>
  re_k comparator_pattern s2 (fun s3 =>
  re_k (Star Chr.is_space) s3 (fun s4 =>
  re_k literal_pattern s4 (fun s5 =>
    Some (consumed operand s1, consumed s2 s3, consumed s4 s5, s5)))))).

Definition starts_with_quote (s : string) : bool :=
  match s with
  | String c _ => Ascii.eqb c Chr.squote || Ascii.eqb c Chr.dquote
  | EmptyString => false
  end.

Fixpoint ends_with_quote (s : string) : bool :=
  match s with
  | String c EmptyString => Ascii.eqb c Chr.squote || Ascii.eqb c Chr.dquote
  | String _ s' => ends_with_quote s'
  | EmptyString => false
  end.

(** [value[1:-1]] *)
Definition slice_1_m1 (s : string) : string :=
  substring 1 (String.length s - 2) s.

(** The type conversion driven by the record's value. *)
Definition coerce (field_value : pyval) (value : string) : result literal :=
  match numeric field_value with
  | Some _ =>
      if has_char "." value then f ← py_float value; Ok (LFloat f)
      else z ← py_int value; Ok (LInt z)
  | None => Ok (LStr value)
  end.

Definition invalid_condition_msg (operand : string) : string :=
  "Invalid condition: " +:+ operand.

Definition field_not_found_msg (field : string) : string :=
  "Field '" +:+ field +:+ "' not found in data.".

Definition evaluate_condition (operand : string) (data : gmap string pyval)
    : result bool :=
  match condition_match operand with
  | None => Raise (ValueError (invalid_condition_msg operand))
  | Some (field, operator, value, _) =>
      match data !! field with
      | None => Raise (ValueError (field_not_found_msg field))
      | Some field_value =>
          let value :=
            if starts_with_quote value && ends_with_quote value
            then slice_1_m1 value else value in
          value ← coerce field_value value;
          let operator := if String.eqb operator "=" then "==" else operator in
          match operators !! operator with
          | Some f => f (py_order field_value value)
          | None => Raise (ValueError ("Unsupported operator: " +:+ operator))
          end
      end
  end.

(** ** Tree evaluator *)

(** [evaluate_rule] on a node that is not [None].  Both children are
    evaluated, the left one first, before the operator is looked at. *)
Fixpoint evaluate_node (ast : Node) (data : gmap string pyval) : result bool :=
  match ast with
  | mkNode ty v l r =>
      if eq_str ty "operator" then
        left_result ←
          match l with Some n => evaluate_node n data | None => Ok false end;
        right_result ←
          match r with Some n => evaluate_node n data | None => Ok false end;
        if eq_str v "AND" then Ok (left_result && right_result)
        else if eq_str v "OR" then Ok (left_result || right_result)
        else Ok false
      else if eq_str ty "operand" then
        match v with
        | VStr operand => evaluate_condition operand data
        | _ => Raise TypeError
        end
      else Ok false
  end.

Definition evaluate_rule (ast : option Node) (data : gmap string pyval)
    : result bool :=
  match ast with
  | None => Ok false
  | Some n => evaluate_node n data
  end.

(** ** Request handlers of [app.py]

    A handler is read as a function of the decoded JSON body of the
    request, [request.json], to the pair of the object handed to [jsonify]
    and the status code.  Log lines and the lines [combine_rules] prints
    are left out. *)

Definition error_body (msg : string) : pyval := VDict (<["error" := VStr msg]> ∅).

(** [request.json.get(key)]: only a map has [get]. *)
Definition json_get (payload : pyval) (key : string) : result pyval :=
  match payload with
  | VDict d => Ok (default VNone (d !! key))
  | _ => Raise AttributeError
  end.

(** [create_rule] on any decoded value: a false value is the empty rule, a
    true value that is not a string makes [re.split] raise [TypeError]. *)
Definition create_rule_value (rule_string : pyval) : result Node :=
  if negb (truthy rule_string) then
    Raise (ValueError "rule_string must not be null or empty")
  else
    match rule_string with
    | VStr s => create_rule s
    | _ => Raise TypeError
    end.

(** The loop of [combine_rules] on decoded values, without the printing. *)
Fixpoint combine_loop_values (rules : list pyval) (combined_ast : option Node)
    : result (option Node) :=
  match rules with
  | [] => Ok combined_ast
  | rule :: rules' =>
      match create_rule_value rule with
      | Ok rule_ast =>
          match combined_ast with
          | None => combine_loop_values rules' (Some rule_ast)
          | Some acc => combine_loop_values rules' (Some (operator_node "OR" acc rule_ast))
          end
      | Raise (ValueError _) => combine_loop_values rules' combined_ast
      | Raise e => Raise e
      end
  end.

(** What [field not in data] followed by [data[field]] raises when [data]
    is not a map: nothing is found in a string or a list that does not
    hold the name, and every other case is a [TypeError]. *)
Definition lookup_failure (data : pyval) (field : string) : exn :=
  let held :=
    match data with
    | VStr s => contains field s
    | VList l => existsb (fun x => eq_str x field) l
    | _ => true
    end in
  if held then TypeError else ValueError (field_not_found_msg field).

(** [evaluate_condition] on any decoded value for [data]. *)
Definition evaluate_condition_value (operand : string) (data : pyval) : result bool :=
  match data with
  | VDict d => evaluate_condition operand d
  | _ =>
      match condition_match operand with
      | None => Raise (ValueError (invalid_condition_msg operand))
      | Some (field, _, _, _) => Raise (lookup_failure data field)
      end
  end.

(** [evaluate_rule] on any decoded value for [data]. *)
Fixpoint evaluate_node_value (ast : Node) (data : pyval) : result bool :=
  match ast with
  | mkNode ty v l r =>
      if eq_str ty "operator" then
        left_result ←
          match l with Some n => evaluate_node_value n data | None => Ok false end;
        right_result ←
          match r with Some n => evaluate_node_value n data | None => Ok false end;
        if eq_str v "AND" then Ok (left_result && right_result)
        else if eq_str v "OR" then Ok (left_result || right_result)
        else Ok false
      else if eq_str ty "operand" then
        match v with
        | VStr operand => evaluate_condition_value operand data
        | _ => Raise TypeError
        end
      else Ok false
  end.

Definition create_rule_route (payload : pyval) : pyval * Z :=
  match
    (rule_string ← json_get payload "rule_string";
     if negb (truthy rule_string)
     then Ok (error_body "rule_string is required", 400%Z)
     else ast ← create_rule_value rule_string; Ok (VDict (to_dict ast), 200%Z))
  with
  | Ok response => response
  | Raise (ValueError e) => (error_body e, 400%Z)
  | Raise _ =>
      (error_body "An unexpected error occurred while creating the rule.", 500%Z)
  end.


Definition api_evaluate_rule (payload : pyval) : pyval * Z :=
  match
    (data ← json_get payload "data";
     ast_data ← json_get payload "ast";
     if negb (truthy data) || negb (truthy ast_data)
     then Ok (error_body "data and ast are required", 400%Z)
     else
       match lacks_required ast_data with
       | None => Raise TypeError
       | Some true =>
           Ok (error_body "Invalid AST structure. 'node_type' and 'value' are required.",
               400%Z)
       | Some false =>
           ast ← json_to_node ast_data;
           result ← evaluate_node_value ast data;
           Ok (VDict (<["result" := VBool result]> ∅), 200%Z)
       end)
  with
  | Ok response => response
  | Raise (ValueError e) => (error_body e, 400%Z)
  | Raise _ =>
      (error_body "An unexpected error occurred during rule evaluation.", 500%Z)
  end.

(** * Definitions for the statements *)

(** ** The scenario of the test suite *)

Definition rule1 : string :=
  "((age > 30 AND department == 'Sales') OR (age < 25 AND department == 'Marketing')) AND (salary > 50000 OR experience > 5)".

Definition record (age : Z) (department : string) (salary experience : Z)
    : gmap string pyval :=
  <["age" := VInt age]> (<["department" := VStr department]>
  (<["salary" := VInt salary]> (<["experience" := VInt experience]> ∅))).

Definition rule1_ast : Node :=
  operator_node "AND"
    (operator_node "OR"
       (operator_node "AND" (operand_node "age > 30")
                            (operand_node "department == 'Sales'"))
       (operator_node "AND" (operand_node "age < 25")
                            (operand_node "department == 'Marketing'")))
    (operator_node "OR" (operand_node "salary > 50000")
                        (operand_node "experience > 5")).

(** ** Combining, evaluating, deserializing *)

(** The trees of the rules that compile, in the order of the rules. *)
Definition compiled (rules : list string) : list Node :=
  omap (fun rule => match create_rule rule with Ok ast => Some ast | Raise _ => None end)
       rules.

(** The left-leaning OR of a list of trees; no tree for no tree. *)
Definition join_or (trees : list Node) : option Node :=
  match trees with
  | [] => None
  | t :: trees' => Some (fold_left (operator_node "OR") trees' t)
  end.

(** What an operator node does with the results of its children. *)
Definition combine (v : pyval) (left_result right_result : bool) : bool :=
  if eq_str v "AND" then left_result && right_result
  else if eq_str v "OR" then left_result || right_result
  else false.

(** The first two tokens of a leaf condition, as [parse] recognizes them:
    an identifier that is not a keyword, then a run of comparison
    characters. *)
Definition leaf_head (field op : string) : Prop :=
  matches ident_pattern field = true
  /\ matches cmp_run_pattern op = true
  /\ field <> "AND" /\ field <> "OR".

Definition condition_of (field op lit : string) : string :=
  field +:+ " " +:+ op +:+ " " +:+ lit.

(** [json_to_node(data[k]) if data.get(k) else None] *)
Definition json_child (d : gmap string pyval) (k : string) : result (option Node) :=
  match d !! k with
  | Some x => if truthy x then n ← json_to_node x; Ok (Some n) else Ok None
  | None => Ok None
  end.

(** [reaches t operand]: the evaluation of the tree [t] comes, by way of
    operator nodes, to an operand node holding the condition [operand]. *)
Inductive reaches : Node -> string -> Prop :=
  | reaches_operand operand l r :
      reaches (mkNode (VStr "operand") (VStr operand) l r) operand
  | reaches_left v l r operand :
      reaches l operand ->
      reaches (mkNode (VStr "operator") v (Some l) r) operand
  | reaches_right v l r operand :
      reaches r operand ->
      reaches (mkNode (VStr "operator") v l (Some r)) operand.

(** ** Words of a pattern and kinds of token *)

(** Every character of [s] satisfies [p]. *)
Fixpoint all_chars (p : ascii -> bool) (s : string) : bool :=
  match s with
  | String c s' => p c && all_chars p s'
  | EmptyString => true
  end.

(** The words a pattern stands for. *)
Inductive lang : regex -> string -> Prop :=
  | lang_cls p c : p c = true -> lang (Cls p) (String c "")
  | lang_seq r1 r2 m1 m2 : lang r1 m1 -> lang r2 m2 -> lang (Seq r1 r2) (m1 +:+ m2)
  | lang_alt_l r1 r2 m : lang r1 m -> lang (Alt r1 r2) m
  | lang_alt_r r1 r2 m : lang r2 m -> lang (Alt r1 r2) m
  | lang_opt_none r : lang (Opt r) ""
  | lang_opt_some r m : lang r m -> lang (Opt r) m
  | lang_star p m : all_chars p m = true -> lang (Star p) m
  | lang_lazy p m : all_chars p m = true -> lang (LazyStar p) m.

(** [re.fullmatch(r, s)] as a truth value. *)
Definition fullmatch (r : regex) (s : string) : bool :=
  match re_k r s (fun rest => if nonempty rest then None else Some tt) with
  | Some _ => true
  | None => false
  end.

(** The lexical forms as the specification lists them: a parenthesis, a
    keyword, an identifier, one of the seven comparators, a quoted string or
    a numeric literal. *)
Definition spec_lexical_form (t : string) : bool :=
  String.eqb t "(" || String.eqb t ")" || String.eqb t "AND" || String.eqb t "OR"
  || fullmatch ident_pattern t
  || existsb (String.eqb t) [">"; "<"; ">="; "<="; "=="; "!="; "="]
  || fullmatch quoted_pattern t
  || fullmatch number_pattern t.

(** A character at which [token_pattern] cannot start a match, whatever
    follows: not white space, not a letter or underscore, none of the
    parentheses and comparison characters. *)
Definition unmatched_char (c : ascii) : bool :=
  negb (Chr.is_space c || Chr.ident_start c || Chr.paren_or_cmp c).

(** A run of unmatched text: what [re.split] leaves between two matches. *)
Definition unmatched_text (t : string) : Prop :=
  t <> "" /\ all_chars unmatched_char t = true.

(** A piece of [re.split]: unmatched text, possibly empty, or a match. *)
Definition split_piece (t : string) : Prop :=
  all_chars unmatched_char t = true \/ lang token_pattern t.

(** ** One-pass scanning of a condition *)

Definition skip_eq (s : string) : string :=
  match s with
  | String c s' => if Chr.only "=" c then s' else s
  | EmptyString => s
  end.

(** The text after the closing quote [q], when no newline comes first. *)
Fixpoint scan_quote (q : ascii) (s : string) : option string :=
  match s with
  | String c s' =>
      if Chr.only q c then Some s'
      else if not_newline c then scan_quote q s'
      else None
  | EmptyString => None
  end.

(** The text after a fraction, if [s] starts with one. *)
Definition skip_fraction (s : string) : string :=
  match s with
  | String c (String d u) =>
      if Chr.only "." c && Chr.is_digit d then drop_while Chr.is_digit u else s
  | _ => s
  end.

(** The text after the literal at the start of [s]. *)
Definition scan_literal (s : string) : option string :=
  match s with
  | String d t =>
      if Chr.is_digit d then Some (skip_fraction (drop_while Chr.is_digit t))
      else if Chr.only Chr.squote d then scan_quote Chr.squote t
      else if Chr.only Chr.dquote d then scan_quote Chr.dquote t
      else None
  | EmptyString => None
  end.

Definition scan_condition (operand : string)
    : option (string * string * string * string) :=
  match operand with
  | String c s0 =>
      if Chr.ident_start c then
        let s1 := drop_while Chr.ident_char s0 in
        let s2 := drop_while Chr.is_space s1 in
        match s2 with
        | String o s3 =>
            if Chr.cmp_char o then
              let s3' := skip_eq s3 in
              let s4 := drop_while Chr.is_space s3' in
              match scan_literal s4 with
              | Some s5 =>
                  Some (consumed operand s1, consumed s2 s3', consumed s4 s5, s5)
              | None => None
              end
            else None
        | EmptyString => None
        end
      else None
  | EmptyString => None
  end.

(** Trailing text that cannot continue a number. *)
Definition literal_stops (extra : string) : bool :=
  match extra with
  | String c _ => negb (Chr.is_digit c || Chr.only "." c)
  | EmptyString => true
  end.

(** ** Expressions and the tokens they are written with *)

(** Boolean expressions over leaf conditions. *)
Inductive expr : Type :=
  | Leaf (field op lit : string)
  | And (l r : expr)
  | Or (l r : expr).

(** The tree an expression stands for. *)
Fixpoint tree (e : expr) : Node :=
  match e with
  | Leaf field op lit => operand_node (condition_of field op lit)
  | And l r => operator_node "AND" (tree l) (tree r)
  | Or l r => operator_node "OR" (tree l) (tree r)
  end.

Definition paren_if (b : bool) (tokens : list string) : list string :=
  if b then "(" :: tokens ++ [")"] else tokens.

(** The tokens of an expression written at level [p]: level 0 takes any
    expression, level 1 puts an OR in parentheses, level 2 puts every
    operator in parentheses.  The right operand of an operator is written
    one level up, the left operand at the operator's own level. *)
Fixpoint show (p : Z) (e : expr) : list string :=
  match e with
  | Leaf field op lit => [field; op; lit]
  | And l r => paren_if (1 <? p)%Z (show 1 l ++ "AND" :: show 2 r)
  | Or l r => paren_if (0 <? p)%Z (show 0 l ++ "OR" :: show 1 r)
  end.

(** Every leaf starts as [parse] wants a leaf to start. *)
Fixpoint leaves_ok (e : expr) : Prop :=
  match e with
  | Leaf field op _ => leaf_head field op
  | And l r | Or l r => leaves_ok l /\ leaves_ok r
  end.

(** The operator on top of the stack, if any, binds less than level [p]. *)
Definition closed (p : Z) (operators : list string) : Prop :=
  match operators with
  | [] => True
  | op :: _ =>
      match precedence !! op with
      | Some q => (q < p)%Z
      | None => True
      end
  end.

(** Operators waiting on the stack, all binding at least as much as
    level [p]. *)
Definition pending (p : Z) (operators : list string) : Prop :=
  Forall (fun op => exists q, precedence !! op = Some q /\ (p <= q)%Z) operators.

(** The trees [parse] builds: operand nodes without children, operator
    nodes with two children and one of the three marks the operator stack
    can hold. *)
Inductive parsed : Node -> Prop :=
  | parsed_operand condition : parsed (operand_node condition)
  | parsed_operator op l r :
      op = "AND" \/ op = "OR" \/ op = "(" ->
      parsed l -> parsed r -> parsed (operator_node op l r).

Definition stack_marks (operators : list string) : Prop :=
  Forall (fun op => op = "AND" \/ op = "OR" \/ op = "(") operators.

(** ** Records of scalars and valuations of conditions *)

(** The values a record holds by the data model: numbers and strings. *)
Definition scalar (v : pyval) : Prop :=
  match v with
  | VBool _ | VInt _ | VFloat _ | VStr _ => True
  | _ => False
  end.

Definition scalar_record (data : gmap string pyval) : Prop :=
  forall field v, data !! field = Some v -> scalar v.

(** The leaf conditions of an expression, left to right. *)
Fixpoint conditions (e : expr) : list string :=
  match e with
  | Leaf field op lit => [condition_of field op lit]
  | And l r | Or l r => conditions l ++ conditions r
  end.

(** The truth value of an expression under a valuation of its leaves. *)
Fixpoint formula (val : string -> bool) (e : expr) : bool :=
  match e with
  | Leaf field op lit => val (condition_of field op lit)
  | And l r => formula val l && formula val r
  | Or l r => formula val l || formula val r
  end.

(** ** Token lists as text *)

(** The pieces in a row. *)
Fixpoint join (pieces : list string) : string :=
  match pieces with
  | [] => EmptyString
  | p :: pieces' => p +:+ join pieces'
  end.

(** The characters of [s] that are not white space. *)
Fixpoint visible (s : string) : string :=
  match s with
  | String c s' => if Chr.is_space c then visible s' else String c (visible s')
  | EmptyString => EmptyString
  end.

(** ** Comparisons of a field with a literal *)

(** An identifier: a letter or underscore, then letters, digits,
    underscores and dots. *)
Definition is_identifier (s : string) : bool :=
  match s with
  | String c s' => Chr.ident_start c && all_chars Chr.ident_char s'
  | EmptyString => false
  end.


Definition comparators : list string := [">"; "<"; ">="; "<="; "=="; "!="; "="].


(** A text that can stand between two quotes [q]: no [q] and no newline. *)
Definition quotable (q : ascii) (v : string) : bool :=
  all_chars (fun c => Chr.except q c && not_newline c) v.

(** [v] between two quotes [q]. *)
Definition quote (q : ascii) (v : string) : string :=
  String q (v +:+ String q "").

(** The test on the order of two values a comparator stands for. *)
Definition order_test (op : string) (c : comparison) : bool :=
  if String.eqb op ">" then match c with Gt => true | _ => false end
  else if String.eqb op "<" then match c with Lt => true | _ => false end
  else if String.eqb op ">=" then match c with Lt => false | _ => true end
  else if String.eqb op "<=" then match c with Gt => false | _ => true end
  else if String.eqb op "!=" then match c with Eq => false | _ => true end
  else match c with Eq => true | _ => false end.

(** ** Answers of the request handlers *)

Definition result_body (b : bool) : pyval := VDict (<["result" := VBool b]> ∅).

(** The answer of [api_evaluate_rule] once [evaluate_rule] has run. *)
Definition evaluation_response (r : result bool) : pyval * Z :=
  match r with
  | Ok b => (result_body b, 200%Z)
  | Raise (ValueError e) => (error_body e, 400%Z)
  | Raise _ =>
      (error_body "An unexpected error occurred during rule evaluation.", 500%Z)
  end.

(** * Properties *)

(** ** Sample runs *)

Example tokenize_age : tokenize "age > 30" = ["age"; ">"; "30"].
Proof. vm_compute. reflexivity. Qed.

Example parse_age : create_rule "age > 30" = Ok (operand_node "age > 30").
Proof. vm_compute. reflexivity. Qed.

Example py_float_tenth :
  py_float "0.1" = Ok (S754_finite false 7205759403792794 (-56)).
Proof. vm_compute. reflexivity. Qed.

Example py_float_grammar :
  (py_float " 1_0.5 ", py_float "1.", py_float ".5e5", py_float "1.5E+2", py_float "-0.0")
  = (Ok (S754_finite false 5910974510923776 (-49)),
     Ok (S754_finite false 4503599627370496 (-52)),
     Ok (S754_finite false 6871947673600000 (-37)),
     Ok (S754_finite false 5277655813324800 (-45)),
     Ok (S754_zero true)).
Proof. vm_compute. reflexivity. Qed.

Example py_int_grammar :
  (py_int " 1_2 ", py_int "-007", py_int "1__2")
  = (Ok 12%Z, Ok (-7)%Z,
     Raise (ValueError "invalid literal for int() with base 10: '1__2'")).
Proof. vm_compute. reflexivity. Qed.

Example eval_age :
  (evaluate_condition "age > 30" (<["age" := VInt 31]> ∅),
   evaluate_condition "age > 30" (<["age" := VInt 30]> ∅),
   evaluate_condition "department = 'Sales'" (<["department" := VStr "Sales"]> ∅),
   evaluate_condition "department = 'Sales'" (<["department" := VStr "sales"]> ∅),
   evaluate_condition "age > 30.5" (<["age" := VInt 31]> ∅),
   evaluate_condition "age ! 30" (<["age" := VInt 31]> ∅),
   evaluate_condition "age > 'x'" (<["age" := VInt 31]> ∅),
   evaluate_condition "age > 30 extra junk" (<["age" := VInt 31]> ∅))
  = (Ok true, Ok false, Ok true, Ok false, Ok true,
     Raise (ValueError "Unsupported operator: !"),
     Raise (ValueError "invalid literal for int() with base 10: 'x'"),
     Ok true).
Proof. vm_compute. reflexivity. Qed.

(** ** The scenario of the test suite *)

(** C1: the rule of the scenario compiles (tokenize, then parse), and the
    tree evaluates to true on the record (35, Sales, 60000, 6) and to false
    on the record (29, Sales, 40000, 3). *)
Theorem scenario_rule1 :
  parse (tokenize rule1) = Ok rule1_ast
  /\ create_rule rule1 = Ok rule1_ast
  /\ evaluate_rule (Some rule1_ast) (record 35 "Sales" 60000 6) = Ok true
  /\ evaluate_rule (Some rule1_ast) (record 29 "Sales" 40000 3) = Ok false.
Proof. repeat split; vm_compute; reflexivity. Qed.

(** ** Tree evaluation *)

Lemma evaluate_rule_operator (v : pyval) (l r : option Node) data :
  evaluate_rule (Some (mkNode (VStr "operator") v l r)) data =
    (left_result ← evaluate_rule l data;
     right_result ← evaluate_rule r data;
     Ok (combine v left_result right_result)).
Proof.
  unfold combine; destruct l as [l|], r as [r|]; cbn;
    repeat (match goal with |- context [evaluate_node ?n data] =>
              destruct (evaluate_node n data) end; cbn);
    destruct (eq_str v "AND"), (eq_str v "OR"); reflexivity.
Qed.

Lemma evaluate_rule_operand (operand : string) data :
  evaluate_rule (Some (operand_node operand)) data = evaluate_condition operand data.
Proof. reflexivity. Qed.

(** C5: an operator node evaluates its left child, then its right child,
    and only then combines the two booleans; so when the left child of an
    AND node is false and the right child raises, the exception comes out
    instead of false. *)
Theorem operator_evaluates_both_children :
  (forall (v : pyval) (l r : option Node) data,
     evaluate_rule (Some (mkNode (VStr "operator") v l r)) data =
       (left_result ← evaluate_rule l data;
        right_result ← evaluate_rule r data;
        Ok (combine v left_result right_result)))
  /\ (forall (l r : Node) data e,
        evaluate_rule (Some l) data = Ok false ->
        evaluate_rule (Some r) data = Raise e ->
        evaluate_rule (Some (operator_node "AND" l r)) data = Raise e).
Proof.
  split; [apply evaluate_rule_operator|].
  intros l r data e Hl Hr. unfold operator_node.
  rewrite evaluate_rule_operator, Hl, Hr. reflexivity.
Qed.

Lemma operator_evaluates_both_children_witness :
  evaluate_rule
    (Some (operator_node "AND" (operand_node "age > 30") (operand_node "salary > 5")))
    (<["age" := VInt 20]> ∅)
  = Raise (ValueError "Field 'salary' not found in data.").
Proof.
  apply (proj2 operator_evaluates_both_children); vm_compute; reflexivity.
Defined.

(** ** Rule combinator *)

Lemma combine_loop_join rules printed : forall acc,
  Forall (fun rule => forall e, create_rule rule = Raise e -> exists msg, e = ValueError msg)
         rules ->
  snd (combine_loop rules acc printed)
  = Ok (match acc with
        | Some t => Some (fold_left (operator_node "OR") (compiled rules) t)
        | None => join_or (compiled rules)
        end).
Proof.
  revert printed. induction rules as [|rule rules IH]; intros printed acc H.
  - destruct acc; reflexivity.
  - apply Forall_cons in H as [Hrule H]. unfold compiled. cbn [combine_loop omap list_omap].
    fold (compiled rules).
    destruct (create_rule rule) as [ast|e] eqn:Hc.
    + destruct acc as [t|]; rewrite IH by exact H; reflexivity.
    + destruct (Hrule e eq_refl) as [msg ->]. rewrite IH by exact H. reflexivity.
Qed.

(** C6: on the list of the rule age > 30 and an unparseable rule, the
    combinator does not fail: it reports the second rule on the standard
    output, skips it, and returns the tree of the first rule alone, as
    [create_rule] builds it, without an OR node around it.  In general,
    when the rules that fail do so with a [ValueError], the result is the
    left-leaning OR of the trees of the rules that compile, in their
    order. *)
Theorem combine_rules_skips_invalid :
  combine_rules ["age > 30"; "not a valid rule ++"]
  = (["Error processing rule 'not a valid rule ++': Error parsing rule: Invalid token or incomplete expression: 'not'"],
     Ok (Some (operand_node "age > 30")))
  /\ create_rule "age > 30" = Ok (operand_node "age > 30")
  /\ forall rules,
       Forall (fun rule => forall e, create_rule rule = Raise e -> exists msg, e = ValueError msg)
              rules ->
       snd (combine_rules rules) = Ok (join_or (compiled rules)).
Proof.
  split; [vm_compute; reflexivity|]. split; [vm_compute; reflexivity|].
  intros [|rule rules] H; [reflexivity|].
  unfold combine_rules. apply (combine_loop_join (rule :: rules) [] None H).
Qed.

Lemma combine_rules_skips_invalid_witness :
  snd (combine_rules ["age > 30"; "not a valid rule ++"; "salary > 5"])
  = Ok (Some (operator_node "OR" (operand_node "age > 30") (operand_node "salary > 5"))).
Proof.
  destruct combine_rules_skips_invalid as (_ & _ & H).
  rewrite H; [vm_compute; reflexivity|].
  repeat constructor; vm_compute; intros e [= <-]; eauto.
Defined.

(** The spec's example of a batch in which nothing parses. *)
Lemma combine_rules_all_invalid :
  snd (combine_rules ["not valid"; "also not valid"]) = Ok None.
Proof. vm_compute. reflexivity. Qed.

Lemma combine_loop_value_errors rules acc printed :
  Forall (fun rule => exists msg, create_rule rule = Raise (ValueError msg)) rules ->
  snd (combine_loop rules acc printed) = Ok acc.
Proof.
  revert printed. induction rules as [|rule rules IH]; intros printed H; [reflexivity|].
  apply Forall_cons in H as [[msg Hmsg] H]. cbn. rewrite Hmsg. apply IH, H.
Qed.

(** A batch whose rules all fail with a [ValueError] yields no tree. *)
Lemma combine_rules_value_errors rules :
  Forall (fun rule => exists msg, create_rule rule = Raise (ValueError msg)) rules ->
  snd (combine_rules rules) = Ok None.
Proof.
  destruct rules; [reflexivity|]. apply combine_loop_value_errors.
Qed.

(** C8: the tokens of age > 30 followed by a closing parenthesis make
    [parse] raise [IndexError], from the pop on the empty operator stack,
    and not a [ValueError]; [create_rule] lets it through. *)
Theorem parse_unmatched_closing_paren :
  tokenize "age > 30 )" = ["age"; ">"; "30"; ")"]
  /\ parse ["age"; ">"; "30"; ")"] = Raise IndexError
  /\ create_rule "age > 30 )" = Raise IndexError.
Proof. repeat split; vm_compute; reflexivity. Qed.

(** C7: a batch whose only rule is a closing parenthesis holds no rule that
    parses, and yet the combinator does not return the absent result: the
    [IndexError] of [parse] is not a [ValueError], so it escapes both
    handlers. *)
Theorem combine_rules_unmatched_paren :
  tokenize ")" = [")"]
  /\ create_rule ")" = Raise IndexError
  /\ combine_rules [")"] = ([], Raise IndexError).
Proof. repeat split; vm_compute; reflexivity. Qed.

(** ** Precedence and grouping *)

Lemma matches_ident_head field :
  matches ident_pattern field = true ->
  exists c s, field = String c s /\ Chr.ident_start c = true.
Proof.
  unfold matches, re_match, ident_pattern. cbn.
  destruct field as [|c s]; [discriminate|].
  destruct (Chr.ident_start c) eqn:Hc; [eauto|discriminate].
Qed.

Lemma precedence_other token :
  token <> "AND" -> token <> "OR" -> precedence !! token = None.
Proof.
  intros H1 H2. unfold precedence.
  rewrite !lookup_insert_ne by congruence. apply lookup_empty.
Qed.

Lemma parse_loop_leaf field op lit rest output operators :
  leaf_head field op ->
  parse_loop (field :: op :: lit :: rest) output operators
  = parse_loop rest (operand_node (condition_of field op lit) :: output) operators.
Proof.
  intros (Hf & Ho & Hand & Hor).
  destruct (matches_ident_head _ Hf) as (c & s & -> & Hc).
  assert (Hopen : String.eqb (String c s) "(" = false).
  { apply String.eqb_neq. intros [= -> _]. discriminate Hc. }
  assert (Hclose : String.eqb (String c s) ")" = false).
  { apply String.eqb_neq. intros [= -> _]. discriminate Hc. }
  cbn [parse_loop]. rewrite Hopen, Hclose, precedence_other, Hf, Ho by assumption.
  reflexivity.
Qed.

Lemma precedence_AND : precedence !! "AND" = Some 1%Z.
Proof. reflexivity. Qed.

Lemma precedence_OR : precedence !! "OR" = Some 0%Z.
Proof. reflexivity. Qed.

Lemma parse_loop_AND rest output operators :
  parse_loop ("AND" :: rest) output operators =
    match pop_operators 1 operators output with
    | Ok (operators', output') => parse_loop rest output' ("AND" :: operators')
    | Raise e => Raise e
    end.
Proof. reflexivity. Qed.

Lemma parse_loop_OR rest output operators :
  parse_loop ("OR" :: rest) output operators =
    match pop_operators 0 operators output with
    | Ok (operators', output') => parse_loop rest output' ("OR" :: operators')
    | Raise e => Raise e
    end.
Proof. reflexivity. Qed.

Lemma parse_loop_nil output operators :
  parse_loop [] output operators = Ok (output, operators).
Proof. reflexivity. Qed.

Ltac parse_steps :=
  unfold parse; cbn [app];
  repeat (first [ rewrite parse_loop_leaf by assumption
                | rewrite parse_loop_AND
                | rewrite parse_loop_OR
                | rewrite parse_loop_nil
                | progress cbn [pop_operators collapse mbind result_bind]
                | rewrite precedence_AND
                | rewrite precedence_OR
                | progress change (1 <=? 1)%Z with true
                | progress change (0 <=? 0)%Z with true
                | progress change (0 <=? 1)%Z with true
                | progress change (1 <=? 0)%Z with false ]).

(** C2: AND binds tighter than OR and equal operators group to the left.
    For leaf conditions a, b, c of three tokens each, a AND b OR c parses to
    OR(AND(a, b), c); when a is false and b, c are true this tree evaluates
    to true, where AND(a, OR(b, c)) would give false.  Chains of one
    operator lean to the left. *)
Theorem and_binds_tighter_than_or f1 o1 v1 f2 o2 v2 f3 o3 v3 :
  leaf_head f1 o1 -> leaf_head f2 o2 -> leaf_head f3 o3 ->
  let a := operand_node (condition_of f1 o1 v1) in
  let b := operand_node (condition_of f2 o2 v2) in
  let c := operand_node (condition_of f3 o3 v3) in
  parse ([f1; o1; v1] ++ ["AND"] ++ [f2; o2; v2] ++ ["OR"] ++ [f3; o3; v3])
    = Ok (operator_node "OR" (operator_node "AND" a b) c)
  /\ parse ([f1; o1; v1] ++ ["AND"] ++ [f2; o2; v2] ++ ["AND"] ++ [f3; o3; v3])
    = Ok (operator_node "AND" (operator_node "AND" a b) c)
  /\ parse ([f1; o1; v1] ++ ["OR"] ++ [f2; o2; v2] ++ ["OR"] ++ [f3; o3; v3])
    = Ok (operator_node "OR" (operator_node "OR" a b) c)
  /\ forall data,
       evaluate_condition (condition_of f1 o1 v1) data = Ok false ->
       evaluate_condition (condition_of f2 o2 v2) data = Ok true ->
       evaluate_condition (condition_of f3 o3 v3) data = Ok true ->
       evaluate_rule (Some (operator_node "OR" (operator_node "AND" a b) c)) data = Ok true
       /\ evaluate_rule (Some (operator_node "AND" a (operator_node "OR" b c))) data = Ok false.
Proof.
  intros H1 H2 H3 a b c. split; [|split; [|split]].
  - parse_steps. reflexivity.
  - parse_steps. reflexivity.
  - parse_steps. reflexivity.
  - intros data Ha Hb Hc. subst a b c. unfold operator_node.
    rewrite !evaluate_rule_operator, !evaluate_rule_operand, Ha, Hb, Hc.
    split; reflexivity.
Qed.

Lemma and_binds_tighter_than_or_witness :
  parse ["x"; ">"; "5"; "AND"; "y"; ">"; "1"; "OR"; "z"; ">"; "2"]
  = Ok (operator_node "OR"
          (operator_node "AND" (operand_node "x > 5") (operand_node "y > 1"))
          (operand_node "z > 2"))
  /\ evaluate_rule
       (Some (operator_node "OR"
                (operator_node "AND" (operand_node "x > 5") (operand_node "y > 1"))
                (operand_node "z > 2")))
       (<["x" := VInt 1]> (<["y" := VInt 5]> (<["z" := VInt 5]> ∅)))
     = Ok true.
Proof.
  assert (Hleaf : forall f, In f ["x"; "y"; "z"] -> leaf_head f ">").
  { intros f [<-|[<-|[<-|[]]]]; repeat split; try discriminate;
      vm_compute; reflexivity. }
  destruct (and_binds_tighter_than_or "x" ">" "5" "y" ">" "1" "z" ">" "2")
    as (Hparse & _ & _ & Heval);
    [apply Hleaf; cbn; tauto ..|].
  split; [exact Hparse|].
  apply (Heval (<["x" := VInt 1]> (<["y" := VInt 5]> (<["z" := VInt 5]> ∅))));
    vm_compute; reflexivity.
Defined.

(** ** Serialization *)

(** The equation of [json_to_node] on a map, with the lookups of the
    source. *)
Lemma json_to_node_dict (d : gmap string pyval) :
  json_to_node (VDict d) =
    match d !! "node_type", d !! "value" with
    | Some ty, Some v =>
        left_node ← json_child d "left";
        right_node ← json_child d "right";
        Ok (mkNode ty v left_node right_node)
    | _, _ => Raise (ValueError missing_keys_msg)
    end.
Proof.
  cbn [json_to_node lacks_required]. unfold json_child.
  rewrite !lookup_fmap.
  destruct (d !! "node_type") as [ty|], (d !! "value") as [v|]; cbn; try reflexivity.
  destruct (d !! "left") as [x|], (d !! "right") as [y|]; cbn;
    try destruct (truthy x); try destruct (truthy y); reflexivity.
Qed.

Lemma json_to_node_missing (d : gmap string pyval) :
  d !! "node_type" = None \/ d !! "value" = None ->
  json_to_node (VDict d) = Raise (ValueError missing_keys_msg).
Proof.
  intros H. rewrite json_to_node_dict.
  destruct H as [-> | ->]; [|destruct (d !! "node_type")]; reflexivity.
Qed.

(** Induction on trees, children included. *)
Lemma Node_induction (P : Node -> Prop) :
  (forall ty v l r,
     from_option P True l -> from_option P True r -> P (mkNode ty v l r)) ->
  forall n, P n.
Proof.
  intros step. fix IH 1. intros [ty v l r]. apply step.
  - destruct l as [n|]; [apply IH|exact I].
  - destruct r as [n|]; [apply IH|exact I].
Qed.

Lemma to_dict_lookup (n : Node) :
  to_dict n !! "node_type" = Some (node_type n)
  /\ to_dict n !! "value" = Some (value n)
  /\ to_dict n !! "left" = (fun c => VDict (to_dict c)) <$> left n
  /\ to_dict n !! "right" = (fun c => VDict (to_dict c)) <$> right n.
Proof.
  destruct n as [ty v [l|] [r|]]; cbn [to_dict node_type value left right fmap option_fmap option_map];
    repeat split;
    repeat (first [ rewrite lookup_insert_eq | rewrite lookup_insert_ne by discriminate
                  | rewrite lookup_empty ]);
    reflexivity.
Qed.

Lemma to_dict_truthy (n : Node) : truthy (VDict (to_dict n)) = true.
Proof.
  cbn. rewrite bool_decide_eq_false_2; [reflexivity|].
  intros H. pose proof (proj1 (to_dict_lookup n)) as Hty.
  rewrite H, lookup_empty in Hty. discriminate.
Qed.

(** Deserializing the serialization of any tree gives the tree back. *)
Lemma json_to_node_to_dict (n : Node) : json_to_node (VDict (to_dict n)) = Ok n.
Proof.
  induction n as [ty v l r IHl IHr] using Node_induction.
  rewrite json_to_node_dict.
  destruct (to_dict_lookup (mkNode ty v l r)) as (-> & -> & Hl & Hr).
  unfold json_child. rewrite Hl, Hr. cbn [node_type value left right].
  destruct l as [l|], r as [r|]; cbn [fmap option_fmap option_map];
    cbn [from_option] in IHl, IHr;
    rewrite ?to_dict_truthy, ?IHl, ?IHr; reflexivity.
Qed.

(** C3: for every tree that [create_rule] or [combine_rules] returns,
    [json_to_node] of its [to_dict] is that same tree, node by node; and
    [json_to_node] of a map without the key node_type or without the key
    value raises the [ValueError] of the missing keys. *)
Theorem serialization_round_trip :
  (forall rule_string ast,
     create_rule rule_string = Ok ast ->
     json_to_node (VDict (to_dict ast)) = Ok ast)
  /\ (forall rules printed ast,
        combine_rules rules = (printed, Ok (Some ast)) ->
        json_to_node (VDict (to_dict ast)) = Ok ast)
  /\ (forall d : gmap string pyval,
        d !! "node_type" = None \/ d !! "value" = None ->
        json_to_node (VDict d) = Raise (ValueError missing_keys_msg)).
Proof.
  split; [|split].
  - intros _ ast _. apply json_to_node_to_dict.
  - intros _ _ ast _. apply json_to_node_to_dict.
  - apply json_to_node_missing.
Qed.

Lemma serialization_round_trip_witness :
  json_to_node (VDict (to_dict rule1_ast)) = Ok rule1_ast
  /\ json_to_node
       (VDict (to_dict (operator_node "OR" (operand_node "age > 30")
                                           (operand_node "salary > 5"))))
     = Ok (operator_node "OR" (operand_node "age > 30") (operand_node "salary > 5"))
  /\ json_to_node (VDict (<["node_type" := VStr "operand"]> ∅))
     = Raise (ValueError missing_keys_msg).
Proof.
  destruct serialization_round_trip as (Hcreate & Hcombine & Hmissing).
  split; [|split].
  - apply (Hcreate rule1). vm_compute. reflexivity.
  - apply (Hcombine ["age > 30"; "salary > 5"] []). vm_compute. reflexivity.
  - apply Hmissing. right. vm_compute. reflexivity.
Defined.

(** ** Missing fields *)

Lemma evaluate_condition_missing_field operand data field op lit rest :
  condition_match operand = Some (field, op, lit, rest) ->
  data !! field = None ->
  evaluate_condition operand data = Raise (ValueError (field_not_found_msg field)).
Proof.
  intros Hm Hf. unfold evaluate_condition. rewrite Hm, Hf. reflexivity.
Qed.

(** An exception of a condition the evaluation reaches is never turned into
    a boolean. *)
Lemma reaches_raises t operand data e :
  reaches t operand ->
  evaluate_condition operand data = Raise e ->
  exists e', evaluate_rule (Some t) data = Raise e'.
Proof.
  intros Hr He. induction Hr as [operand l r|v l r operand Hr IH|v l r operand Hr IH].
  - exists e. cbn. exact He.
  - destruct (IH He) as [e' He']. exists e'.
    rewrite evaluate_rule_operator, He'. reflexivity.
  - destruct (IH He) as [e' He'].
    rewrite evaluate_rule_operator, He'.
    destruct (evaluate_rule l data) as [b|e'']; cbn; eauto.
Qed.

(** C4: when the field of a well-shaped condition is absent from the
    record, [evaluate_condition] raises the field-not-found [ValueError];
    so does an operand node holding the condition, and a tree whose
    evaluation reaches such a node raises as well: no boolean comes out. *)
Theorem missing_field_is_an_error operand data field op lit rest :
  condition_match operand = Some (field, op, lit, rest) ->
  data !! field = None ->
  evaluate_condition operand data = Raise (ValueError (field_not_found_msg field))
  /\ evaluate_rule (Some (operand_node operand)) data
     = Raise (ValueError (field_not_found_msg field))
  /\ (forall b, evaluate_condition operand data <> Ok b)
  /\ (forall t, reaches t operand ->
        (exists e, evaluate_rule (Some t) data = Raise e)
        /\ forall b, evaluate_rule (Some t) data <> Ok b).
Proof.
  intros Hm Hf.
  pose proof (evaluate_condition_missing_field _ _ _ _ _ _ Hm Hf) as He.
  split; [exact He|]. split; [exact He|]. split.
  - intros b Hb. rewrite He in Hb. discriminate.
  - intros t Ht. destruct (reaches_raises _ _ data _ Ht He) as [e' He'].
    split; [eauto|]. intros b Hb. rewrite He' in Hb. discriminate.
Qed.

Lemma missing_field_is_an_error_witness :
  evaluate_condition "age > 30" (<["salary" := VInt 60000]> ∅)
  = Raise (ValueError "Field 'age' not found in data.").
Proof.
  apply (missing_field_is_an_error "age > 30" (<["salary" := VInt 60000]> ∅)
           "age" ">" "30" "");
    vm_compute; reflexivity.
Defined.

(** ** Strings and the matcher *)

Lemma app_cons (c : ascii) (s t : string) : String c s +:+ t = String c (s +:+ t).
Proof. reflexivity. Qed.

Lemma app_empty_r (s : string) : s +:+ "" = s.
Proof. induction s as [|c s IH]; [reflexivity|]. rewrite app_cons, IH. reflexivity. Qed.

Lemma app_assoc_str (s t u : string) : (s +:+ t) +:+ u = s +:+ (t +:+ u).
Proof. induction s as [|c s IH]; [reflexivity|]. rewrite !app_cons, IH. reflexivity. Qed.

Lemma length_app_str (s t : string) :
  String.length (s +:+ t) = (String.length s + String.length t)%nat.
Proof. induction s as [|c s IH]; [reflexivity|]. rewrite app_cons. cbn. rewrite IH. reflexivity. Qed.

Lemma substring_prefix (m rest : string) :
  substring 0 (String.length m) (m +:+ rest) = m.
Proof.
  induction m as [|c m IH]; [destruct rest; reflexivity|].
  rewrite app_cons. cbn. rewrite IH. reflexivity.
Qed.

Lemma consumed_app (m rest : string) : consumed (m +:+ rest) rest = m.
Proof.
  unfold consumed. rewrite length_app_str.
  replace (String.length m + String.length rest - String.length rest)%nat
    with (String.length m) by lia.
  apply substring_prefix.
Qed.

Section MatcherSound.
Context {A : Type}.

Lemma star_greedy_sound p s (k : string -> option A) x :
  star_greedy p s k = Some x ->
  exists m rest, s = m +:+ rest /\ all_chars p m = true /\ k rest = Some x.
Proof.
  induction s as [|c s IH]; cbn.
  - intros H. exists "", "". auto.
  - destruct (p c) eqn:Hc.
    + destruct (star_greedy p s k) as [y|] eqn:Hs.
      * intros [= ->]. destruct (IH eq_refl) as (m & rest & -> & Hm & Hk).
        exists (String c m), rest. cbn. rewrite Hc, Hm. auto.
      * intros H. exists "", (String c s). auto.
    + intros H. exists "", (String c s). auto.
Qed.

Lemma star_lazy_sound p s (k : string -> option A) x :
  star_lazy p s k = Some x ->
  exists m rest, s = m +:+ rest /\ all_chars p m = true /\ k rest = Some x.
Proof.
  induction s as [|c s IH]; cbn.
  - destruct (k "") eqn:Hk; [|discriminate]. intros [= ->]. exists "", "". auto.
  - destruct (k (String c s)) eqn:Hk.
    + intros [= ->]. exists "", (String c s). auto.
    + destruct (p c) eqn:Hc; [|discriminate].
      intros H. destruct (IH H) as (m & rest & -> & Hm & Hk').
      exists (String c m), rest. cbn. rewrite Hc, Hm. auto.
Qed.

(** Whatever the matcher accepts is a word of the pattern followed by a
    text the continuation accepts. *)
Lemma re_k_sound r : forall s (k : string -> option A) x,
  re_k r s k = Some x ->
  exists m rest, s = m +:+ rest /\ lang r m /\ k rest = Some x.
Proof.
  induction r as [p|r1 IH1 r2 IH2|r1 IH1 r2 IH2|r IH|p|p]; intros s k x; cbn.
  - destruct s as [|c s]; [discriminate|].
    destruct (p c) eqn:Hc; [|discriminate].
    intros H. exists (String c ""), s. split; [reflexivity|]. split; [constructor|]; auto.
  - intros H. apply IH1 in H as (m1 & rest1 & -> & L1 & H).
    apply IH2 in H as (m2 & rest & -> & L2 & H).
    exists (m1 +:+ m2), rest. rewrite app_assoc_str. split; [reflexivity|].
    split; [constructor|]; auto.
  - destruct (re_k r1 s k) as [y|] eqn:H1.
    + intros [= ->]. apply IH1 in H1 as (m & rest & -> & L & H).
      exists m, rest. split; [reflexivity|]. split; [apply lang_alt_l|]; auto.
    + intros H. apply IH2 in H as (m & rest & -> & L & H).
      exists m, rest. split; [reflexivity|]. split; [apply lang_alt_r|]; auto.
  - destruct (re_k r s k) as [y|] eqn:H1.
    + intros [= ->]. apply IH in H1 as (m & rest & -> & L & H).
      exists m, rest. split; [reflexivity|]. split; [apply lang_opt_some|]; auto.
    + intros H. exists "", s. split; [reflexivity|]. split; [apply lang_opt_none|]; auto.
  - intros H. apply star_greedy_sound in H as (m & rest & -> & Hm & H).
    exists m, rest. split; [reflexivity|]. split; [apply lang_star|]; auto.
  - intros H. apply star_lazy_sound in H as (m & rest & -> & Hm & H).
    exists m, rest. split; [reflexivity|]. split; [apply lang_lazy|]; auto.
Qed.

End MatcherSound.

Lemma re_match_sound r s rest :
  re_match r s = Some rest ->
  exists m, s = m +:+ rest /\ lang r m /\ consumed s rest = m.
Proof.
  intros H. apply re_k_sound in H as (m & rest' & -> & L & [= ->]).
  exists m. rewrite consumed_app. auto.
Qed.

(** ** Tokens *)

Lemma re_k_alt_l {A} r1 r2 s (k : string -> option A) :
  is_Some (re_k r1 s k) -> is_Some (re_k (Alt r1 r2) s k).
Proof. intros [x Hx]. cbn. rewrite Hx. eauto. Qed.

Lemma re_k_alt_r {A} r1 r2 s (k : string -> option A) :
  is_Some (re_k r2 s k) -> is_Some (re_k (Alt r1 r2) s k).
Proof. intros H. cbn. destruct (re_k r1 s k); eauto. Qed.

Lemma star_greedy_total {A} p s (k : string -> option A) :
  (forall t, is_Some (k t)) -> is_Some (star_greedy p s k).
Proof.
  intros Hk. induction s as [|c s IH]; cbn; [apply Hk|].
  destruct (p c); [|apply Hk].
  destruct (star_greedy p s k); [eauto|apply Hk].
Qed.

Lemma token_pattern_starts c s :
  unmatched_char c = false -> is_Some (re_match token_pattern (String c s)).
Proof.
  unfold unmatched_char, re_match, token_pattern, lexeme_pattern, ident_pattern.
  intros H.
  apply negb_false_iff in H.
  destruct (Chr.is_space c) eqn:Hs.
  { apply re_k_alt_l. cbn. rewrite Hs. apply star_greedy_total. eauto. }
  do 3 apply re_k_alt_r.
  destruct (Chr.paren_or_cmp c) eqn:Hp.
  { apply re_k_alt_l. cbn. rewrite Hp.
    destruct s as [|d s]; [eauto|]. destruct (Chr.only "=" d); eauto. }
  apply re_k_alt_r, re_k_alt_l. cbn.
  destruct (Chr.ident_start c); [|discriminate].
  apply star_greedy_total. eauto.
Qed.

Lemma token_pattern_fails c s :
  re_match token_pattern (String c s) = None -> unmatched_char c = true.
Proof.
  intros H. destruct (unmatched_char c) eqn:Hc; [reflexivity|].
  destruct (token_pattern_starts c s Hc) as [x Hx]. congruence.
Qed.

Lemma lang_token_pattern m :
  lang token_pattern m -> lang (Plus Chr.is_space) m \/ lang lexeme_pattern m.
Proof.
  unfold token_pattern. intros H.
  inversion H as [| |? ? ? H1|? ? ? H1| | | |]; subst; auto.
Qed.

Lemma lstrip_all_space m : all_chars Chr.is_space m = true -> lstrip m = "".
Proof.
  induction m as [|c m IH]; [reflexivity|]. cbn.
  destruct (Chr.is_space c); [exact IH|discriminate].
Qed.

Lemma strip_space_run m : lang (Plus Chr.is_space) m -> strip m = "".
Proof.
  intros H. unfold strip. rewrite lstrip_all_space; [reflexivity|].
  inversion H as [|? ? m1 m2 H1 H2| | | | | |]; subst.
  inversion H1 as [? c Hc| | | | | | |]; subst.
  inversion H2 as [| | | | | |? ? Hm|]; subst.
  rewrite app_cons. cbn [all_chars]. rewrite Hc. exact Hm.
Qed.

Lemma all_chars_snoc p s c :
  all_chars p s = true -> p c = true -> all_chars p (s +:+ String c "") = true.
Proof.
  intros Hs Hc. induction s as [|d s IH].
  - change ("" +:+ String c "") with (String c ""). cbn. rewrite Hc. reflexivity.
  - rewrite app_cons. cbn [all_chars] in *.
    apply andb_true_iff in Hs as [-> Hs]. auto.
Qed.

Lemma re_split_from_pieces fuel : forall s gap,
  (String.length s <= fuel)%nat ->
  all_chars unmatched_char gap = true ->
  Forall split_piece (re_split_from fuel token_pattern s gap).
Proof.
  induction fuel as [|fuel IH]; intros s gap Hlen Hgap.
  - destruct s; [|cbn in Hlen; lia]. constructor; [left; exact Hgap|constructor].
  - destruct s as [|c s]; [constructor; [left; exact Hgap|constructor]|].
    cbn [re_split_from].
    destruct (re_match token_pattern (String c s)) as [rest|] eqn:Hm.
    + destruct (String.length rest <? String.length (String c s))%nat eqn:Hlt.
      * apply Nat.ltb_lt in Hlt.
        apply re_match_sound in Hm as (m & Hs & L & ->).
        constructor; [left; exact Hgap|]. constructor; [right; exact L|].
        apply IH; [cbn in *; lia|reflexivity].
      * apply Nat.ltb_ge in Hlt.
        apply re_match_sound in Hm as (m & Hs & L & _).
        apply (f_equal String.length) in Hs. rewrite length_app_str in Hs.
        assert (m = "") as -> by (destruct m; [reflexivity|cbn in Hs, Hlt; lia]).
        apply lang_token_pattern in L as [L|L]; exfalso; revert L; clear.
        -- intros L. inversion L as [|? ? m1 m2 H1 H2 He| | | | | |]; subst.
           inversion H1; subst. discriminate.
        -- unfold lexeme_pattern, ident_pattern, quoted_pattern. intros L.
           repeat match goal with
             | H : lang (Alt _ _) _ |- _ => inversion H; subst; clear H
             | H : lang (Seq _ _) ?m |- _ => inversion H; subst; clear H
             | H : lang (Word _) _ |- _ => cbn in H
             | H : lang (Lit _) _ |- _ => inversion H; subst; clear H
             | H : lang (Cls _) _ |- _ => inversion H; subst; clear H
             | H : String _ _ +:+ _ = "" |- _ => discriminate H
             | H : (String _ _ +:+ _) +:+ _ = "" |- _ => discriminate H
             end.
    + apply token_pattern_fails in Hm.
      apply IH; [cbn in Hlen; lia|]. apply all_chars_snoc; assumption.
Qed.

Lemma re_split_pieces s : Forall split_piece (re_split token_pattern s).
Proof. apply re_split_from_pieces; [lia|reflexivity]. Qed.

(** The claim as the specification words it fails on unmatched text: the
    two plus signs between a and b come out as a token, and they are none
    of the listed forms. *)
Lemma tokenize_unmatched_text_is_a_token :
  tokenize "a ++ b" = ["a"; "++"; "b"]
  /\ spec_lexical_form "++" = false
  /\ ~ (forall s t, In t (tokenize s) -> spec_lexical_form t = true).
Proof.
  split; [vm_compute; reflexivity|]. split; [vm_compute; reflexivity|].
  intros H. specialize (H "a ++ b" "++").
  assert (Hin : In "++" (tokenize "a ++ b")) by (vm_compute; tauto).
  apply H in Hin. vm_compute in Hin. discriminate.
Qed.

(** A lone exclamation mark is a matched span and a token, though not one
    of the seven comparators. *)
Lemma tokenize_bare_bang :
  tokenize "age ! 30" = ["age"; "!"; "30"] /\ spec_lexical_form "!" = false.
Proof. split; vm_compute; reflexivity. Qed.

(** C9, amended: every token is either a span matched by one of the
    alternatives of the pattern other than white space (a keyword, one of
    the parentheses and comparison characters with an optional equals sign
    after it, an identifier, a quoted string), or a non-empty run of
    unmatched text, free of white space, letters, underscores, parentheses
    and comparison characters.  Numeric literals are tokens of the second
    kind, and so is any other unmatched text. *)
Theorem tokenize_token_forms s t :
  In t (tokenize s) -> lang lexeme_pattern t \/ unmatched_text t.
Proof.
  unfold tokenize. intros Hin.
  apply list_elem_of_In, list_elem_of_filter in Hin as [Hstrip Hin].
  pose proof (re_split_pieces s) as Hall.
  rewrite Forall_forall in Hall. specialize (Hall t Hin).
  destruct Hall as [Hgap|Hlang].
  - right. split; [|exact Hgap]. intros ->. discriminate Hstrip.
  - apply lang_token_pattern in Hlang as [Hws|Hlex]; [|left; exact Hlex].
    rewrite (strip_space_run _ Hws) in Hstrip. discriminate Hstrip.
Qed.

Lemma tokenize_token_forms_witness :
  lang lexeme_pattern "30" \/ unmatched_text "30".
Proof.
  apply (tokenize_token_forms "age > 30" "30"). vm_compute. tauto.
Defined.

(** ** The condition pattern, scanned left to right

    No backtracking ever changes the outcome of the pattern of
    [evaluate_condition]: each part of it stops at a character the next part
    cannot start with.  [scan_condition] reads the groups off in one pass. *)

Ltac by_cases_on_char c :=
  destruct c as [[] [] [] [] [] [] [] []]; vm_compute; intros; repeat split; congruence.

Lemma ident_char_not_space c : Chr.ident_char c = true -> Chr.is_space c = false.
Proof. by_cases_on_char c. Qed.

Lemma ident_char_not_cmp c : Chr.ident_char c = true -> Chr.cmp_char c = false.
Proof. by_cases_on_char c. Qed.

Lemma space_not_cmp c : Chr.is_space c = true -> Chr.cmp_char c = false.
Proof. by_cases_on_char c. Qed.

Lemma space_not_literal c :
  Chr.is_space c = true ->
  Chr.is_digit c = false /\ Chr.only Chr.squote c = false /\ Chr.only Chr.dquote c = false.
Proof. by_cases_on_char c. Qed.

Lemma eq_not_literal c :
  Chr.only "=" c = true ->
  Chr.is_space c = false /\ Chr.is_digit c = false
  /\ Chr.only Chr.squote c = false /\ Chr.only Chr.dquote c = false.
Proof. by_cases_on_char c. Qed.

Lemma quotes_differ c :
  Chr.only Chr.squote c = true -> Chr.only Chr.dquote c = false.
Proof. by_cases_on_char c. Qed.

Section Deterministic.
Context {A : Type}.

(** A greedy star whose continuation rejects every text that starts in the
    class never gains from giving characters back. *)
Lemma star_greedy_drop p s (k : string -> option A) :
  (forall c t, p c = true -> k (String c t) = None) ->
  star_greedy p s k = k (drop_while p s).
Proof.
  intros Hk. induction s as [|c s IH]; cbn; [reflexivity|].
  destruct (p c) eqn:Hc; [|reflexivity].
  rewrite IH. destruct (k (drop_while p s)) eqn:Hd; [reflexivity|].
  apply Hk, Hc.
Qed.

(** Nor does one whose continuation accepts every text. *)
Lemma star_greedy_drop_total p s (k : string -> option A) :
  (forall t, is_Some (k t)) ->
  star_greedy p s k = k (drop_while p s).
Proof.
  intros Hk. induction s as [|c s IH]; cbn; [reflexivity|].
  destruct (p c) eqn:Hc; [|reflexivity].
  rewrite IH. destruct (Hk (drop_while p s)) as [x ->]. reflexivity.
Qed.

Lemma opt_eq_skip s (k : string -> option A) :
  (forall c t, Chr.only "=" c = true -> k (String c t) = None) ->
  re_k (Opt (Lit "=")) s k = k (skip_eq s).
Proof.
  intros Hk. destruct s as [|c s]; cbn; [reflexivity|].
  destruct (Chr.only "=" c) eqn:Hc; [|reflexivity].
  destruct (k s) eqn:Hs; [reflexivity|]. apply Hk, Hc.
Qed.

Lemma comparator_scan s (k : string -> option A) :
  (forall c t, Chr.only "=" c = true -> k (String c t) = None) ->
  re_k comparator_pattern s k
  = match s with
    | String o s3 => if Chr.cmp_char o then k (skip_eq s3) else None
    | EmptyString => None
    end.
Proof.
  intros Hk. destruct s as [|o s3]; [reflexivity|].
  change (re_k comparator_pattern (String o s3) k)
    with (if Chr.cmp_char o then re_k (Opt (Lit "=")) s3 k else None).
  destruct (Chr.cmp_char o); [|reflexivity]. apply opt_eq_skip, Hk.
Qed.

Lemma star_lazy_quote q s (k : string -> option A) :
  (forall t, is_Some (k t)) ->
  star_lazy not_newline s (fun s' => re_k (Lit q) s' k)
  = match scan_quote q s with Some t => k t | None => None end.
Proof.
  intros Hk. induction s as [|c s IH]; cbn; [reflexivity|].
  destruct (Chr.only q c) eqn:Hc.
  - destruct (Hk s) as [x ->]. reflexivity.
  - destruct (not_newline c); [exact IH|reflexivity].
Qed.

Lemma re_k_opt_total r s (k : string -> option A) :
  (forall t, is_Some (k t)) -> is_Some (re_k (Opt r) s k).
Proof. intros Hk. cbn. destruct (re_k r s k); [eauto|apply Hk]. Qed.

Lemma fraction_skip s (k : string -> option A) :
  (forall t, is_Some (k t)) ->
  re_k (Opt (Seq (Lit ".") (Plus Chr.is_digit))) s k = k (skip_fraction s).
Proof.
  intros Hk. unfold skip_fraction. cbn [re_k Plus Lit].
  destruct s as [|c [|e u]].
  - reflexivity.
  - destruct (Chr.only "." c); reflexivity.
  - destruct (Chr.only "." c), (Chr.is_digit e); cbn [andb]; try reflexivity.
    rewrite star_greedy_drop_total by exact Hk.
    destruct (Hk (drop_while Chr.is_digit u)) as [x ->]. reflexivity.
Qed.

Lemma number_scan d t (k : string -> option A) :
  (forall u, is_Some (k u)) ->
  re_k number_pattern (String d t) k
  = if Chr.is_digit d then k (skip_fraction (drop_while Chr.is_digit t)) else None.
Proof.
  intros Hk.
  change (re_k number_pattern (String d t) k)
    with (if Chr.is_digit d
          then star_greedy Chr.is_digit t
                 (fun s => re_k (Opt (Seq (Lit ".") (Plus Chr.is_digit))) s k)
          else None).
  destruct (Chr.is_digit d); [|reflexivity].
  rewrite star_greedy_drop_total by (intros u; apply re_k_opt_total, Hk).
  apply fraction_skip, Hk.
Qed.

Lemma lazy_quoted_scan q d t (k : string -> option A) :
  (forall u, is_Some (k u)) ->
  re_k (lazy_quoted q) (String d t) k
  = if Chr.only q d
    then match scan_quote q t with Some u => k u | None => None end
    else None.
Proof.
  intros Hk.
  change (re_k (lazy_quoted q) (String d t) k)
    with (if Chr.only q d
          then star_lazy not_newline t (fun s' => re_k (Lit q) s' k)
          else None).
  destruct (Chr.only q d); [|reflexivity]. apply star_lazy_quote, Hk.
Qed.

Lemma literal_scan s (k : string -> option A) :
  (forall t, is_Some (k t)) ->
  re_k literal_pattern s k
  = match scan_literal s with Some t => k t | None => None end.
Proof.
  intros Hk. destruct s as [|d t]; [reflexivity|].
  unfold literal_pattern, scan_literal. cbn [re_k].
  rewrite number_scan, !lazy_quoted_scan by exact Hk.
  destruct (Chr.is_digit d) eqn:Hd.
  - destruct (Hk (skip_fraction (drop_while Chr.is_digit t))) as [x ->]. reflexivity.
  - destruct (Chr.only Chr.squote d) eqn:Hsq;
      [|destruct (Chr.only Chr.dquote d); reflexivity].
    rewrite (quotes_differ _ Hsq).
    destruct (scan_quote Chr.squote t) as [u|]; [|reflexivity].
    destruct (Hk u) as [x ->]. reflexivity.
Qed.

End Deterministic.

Theorem condition_match_scan operand : condition_match operand = scan_condition operand.
Proof.
  unfold condition_match, scan_condition, ident_pattern.
  destruct operand as [|c s0]; [reflexivity|]. cbn [re_k].
  destruct (Chr.ident_start c); [|reflexivity].
  rewrite star_greedy_drop.
  2:{ intros a t Ha. cbn. rewrite (ident_char_not_space _ Ha), (ident_char_not_cmp _ Ha).
      reflexivity. }
  set (s1 := drop_while Chr.ident_char s0).
  rewrite star_greedy_drop.
  2:{ intros a t Ha. cbn. rewrite (space_not_cmp _ Ha). reflexivity. }
  set (s2 := drop_while Chr.is_space s1).
  rewrite comparator_scan.
  2:{ intros a t Ha. destruct (eq_not_literal _ Ha) as (Hs & Hd & Hsq & Hdq).
      cbn [re_k star_greedy]. rewrite Hs. unfold literal_pattern.
      cbn [re_k]. rewrite number_scan, !lazy_quoted_scan by eauto.
      rewrite Hd, Hsq, Hdq. reflexivity. }
  destruct s2 as [|o s3] eqn:Hs2; [reflexivity|].
  destruct (Chr.cmp_char o); [|reflexivity].
  rewrite star_greedy_drop.
  2:{ intros a t Ha. destruct (space_not_literal _ Ha) as (Hd & Hsq & Hdq).
      unfold literal_pattern.
      cbn [re_k]. rewrite number_scan, !lazy_quoted_scan by eauto.
      rewrite Hd, Hsq, Hdq. reflexivity. }
  rewrite literal_scan by eauto. reflexivity.
Qed.

(** ** Text after the match *)

Lemma app_empty_l (s : string) : "" +:+ s = s.
Proof. reflexivity. Qed.

Lemma app_length_absurd (m s : string) c : String c m +:+ s <> s.
Proof.
  intros H. apply (f_equal String.length) in H.
  rewrite length_app_str in H. cbn in H. lia.
Qed.

Lemma length_drop_while p s : (String.length (drop_while p s) <= String.length s)%nat.
Proof.
  induction s as [|c s IH]; cbn; [lia|]. destruct (p c); cbn; lia.
Qed.

Lemma length_skip_eq s : (String.length (skip_eq s) <= String.length s)%nat.
Proof. destruct s as [|c s]; cbn; [lia|]. destruct (Chr.only "=" c); cbn; lia. Qed.

Lemma length_scan_quote q s r :
  scan_quote q s = Some r -> (String.length r < String.length s)%nat.
Proof.
  revert r. induction s as [|c s IH]; cbn; intros r; [discriminate|].
  destruct (Chr.only q c); [intros [= ->]; lia|].
  destruct (not_newline c); [|discriminate]. intros H. apply IH in H. lia.
Qed.

Lemma length_skip_fraction s : (String.length (skip_fraction s) <= String.length s)%nat.
Proof.
  destruct s as [|c [|d u]]; cbn; try lia.
  destruct (Chr.only "." c && Chr.is_digit d); cbn; [|lia].
  pose proof (length_drop_while Chr.is_digit u). lia.
Qed.

Lemma length_scan_literal s r :
  scan_literal s = Some r -> (String.length r < String.length s)%nat.
Proof.
  destruct s as [|d t]; cbn; [discriminate|].
  destruct (Chr.is_digit d).
  - intros [= <-].
    pose proof (length_skip_fraction (drop_while Chr.is_digit t)).
    pose proof (length_drop_while Chr.is_digit t). lia.
  - destruct (Chr.only Chr.squote d); [intros H; apply length_scan_quote in H; lia|].
    destruct (Chr.only Chr.dquote d); [intros H; apply length_scan_quote in H; lia|].
    discriminate.
Qed.

(** [drop_while] on a text followed by more text. *)
Lemma drop_while_app p a b :
  drop_while p (a +:+ b)
  = match drop_while p a with
    | EmptyString => drop_while p b
    | r => r +:+ b
    end.
Proof.
  induction a as [|c a IH]; [reflexivity|].
  rewrite app_cons. cbn [drop_while]. destruct (p c); [exact IH|reflexivity].
Qed.

Lemma skip_eq_app a b : a <> "" -> skip_eq (a +:+ b) = skip_eq a +:+ b.
Proof.
  destruct a as [|c a]; [congruence|]. intros _. rewrite app_cons. cbn.
  destruct (Chr.only "=" c); reflexivity.
Qed.

Lemma scan_quote_app q a b r :
  scan_quote q a = Some r -> scan_quote q (a +:+ b) = Some (r +:+ b).
Proof.
  induction a as [|c a IH]; [discriminate|]. rewrite app_cons. cbn.
  destruct (Chr.only q c); [intros [= ->]; reflexivity|].
  destruct (not_newline c); [exact IH|discriminate].
Qed.

Lemma literal_stops_drop extra :
  literal_stops extra = true ->
  drop_while Chr.is_digit extra = extra /\ skip_fraction extra = extra.
Proof.
  destruct extra as [|c [|d u]]; cbn; auto;
    destruct (Chr.is_digit c), (Chr.only "." c); cbn; auto; discriminate.
Qed.

(** The literal is still found when text is appended, and it is the same
    literal when that text cannot continue a number. *)
Lemma scan_literal_app a b :
  scan_literal a = Some "" ->
  exists r, scan_literal (a +:+ b) = Some r
            /\ (literal_stops b = true -> r = b).
Proof.
  destruct a as [|d t]; [discriminate|]. rewrite app_cons. cbn [scan_literal].
  destruct (Chr.is_digit d).
  - intros [= H]. eexists. split; [reflexivity|]. intros Hb.
    destruct (literal_stops_drop _ Hb) as [Hd Hf].
    rewrite drop_while_app. destruct (drop_while Chr.is_digit t) as [|c r0] eqn:Hr.
    + rewrite Hd. exact Hf.
    + destruct r0 as [|e u]; [cbn in H; discriminate|].
      rewrite !app_cons. cbn [skip_fraction] in *.
      destruct (Chr.only "." c && Chr.is_digit e); [|discriminate].
      rewrite drop_while_app, H. exact Hd.
  - destruct (Chr.only Chr.squote d).
    + intros H. apply (scan_quote_app _ _ b) in H. eauto.
    + destruct (Chr.only Chr.dquote d); [|discriminate].
      intros H. apply (scan_quote_app _ _ b) in H. eauto.
Qed.

Lemma substring_app_le n (a b : string) :
  (n <= String.length a)%nat -> substring 0 n (a +:+ b) = substring 0 n a.
Proof.
  revert n. induction a as [|c a IH]; intros n Hn.
  - cbn in Hn. assert (n = 0%nat) as -> by lia. destruct b; reflexivity.
  - rewrite app_cons. destruct n as [|n]; [reflexivity|].
    cbn in *. rewrite IH by lia. reflexivity.
Qed.

Lemma consumed_ext a b e : consumed (a +:+ e) (b +:+ e) = consumed a b.
Proof.
  unfold consumed. rewrite !length_app_str.
  replace (String.length a + String.length e - (String.length b + String.length e))%nat
    with (String.length a - String.length b)%nat by lia.
  apply substring_app_le. lia.
Qed.

Lemma consumed_all s : consumed s "" = s.
Proof.
  rewrite <- (app_empty_r s) at 1. rewrite consumed_app. reflexivity.
Qed.

Lemma drop_while_app_nonempty p a b :
  drop_while p a <> "" -> drop_while p (a +:+ b) = drop_while p a +:+ b.
Proof.
  intros H. rewrite drop_while_app. destruct (drop_while p a); [congruence|reflexivity].
Qed.

Lemma scan_literal_nonempty s r : scan_literal s = Some r -> s <> "".
Proof. destruct s; [discriminate|congruence]. Qed.

(** A condition that matches keeps matching when text is appended, with the
    same field and comparator; the literal is the same too when the text
    cannot continue a number. *)
Lemma scan_condition_app p extra f o v :
  scan_condition p = Some (f, o, v, "") ->
  exists v' rest,
    scan_condition (p +:+ extra) = Some (f, o, v', rest)
    /\ (literal_stops extra = true -> v' = v /\ rest = extra).
Proof.
  destruct p as [|c s0]; [discriminate|]. rewrite app_cons.
  unfold scan_condition. cbv zeta.
  destruct (Chr.ident_start c); [|discriminate].
  remember (drop_while Chr.ident_char s0) as s1 eqn:E1.
  remember (drop_while Chr.is_space s1) as s2 eqn:E2.
  destruct s2 as [|oc s3]; [discriminate|].
  destruct (Chr.cmp_char oc) eqn:Hoc; [|discriminate].
  remember (skip_eq s3) as s3' eqn:E3.
  remember (drop_while Chr.is_space s3') as s4 eqn:E4.
  destruct (scan_literal s4) as [s5|] eqn:E5; [|discriminate].
  intros [= <- <- <- ->].
  assert (N4 : s4 <> "") by (eapply scan_literal_nonempty; eauto).
  assert (N3' : s3' <> "") by (intros ->; cbn in E4; congruence).
  assert (N3 : s3 <> "") by (intros ->; cbn in E3; congruence).
  assert (N1 : s1 <> "") by (intros ->; cbn in E2; congruence).
  rewrite drop_while_app_nonempty, <- E1 by congruence.
  rewrite drop_while_app_nonempty, <- E2 by congruence.
  rewrite app_cons, Hoc.
  rewrite skip_eq_app, <- E3 by exact N3.
  rewrite drop_while_app_nonempty, <- E4 by congruence.
  destruct (scan_literal_app s4 extra E5) as (r & -> & Hr).
  exists (consumed (s4 +:+ extra) r), r. split.
  - rewrite <- !app_cons, !consumed_ext. reflexivity.
  - intros Hstop. rewrite (Hr Hstop). split; [|reflexivity].
    rewrite consumed_app, consumed_all. reflexivity.
Qed.

Lemma drop_while_trunc p a b :
  (String.length b < String.length (drop_while p (a +:+ b)))%nat ->
  drop_while p (a +:+ b) = drop_while p a +:+ b /\ drop_while p a <> "".
Proof.
  rewrite drop_while_app. destruct (drop_while p a) as [|c r].
  - intros H. pose proof (length_drop_while p b). lia.
  - intros _. split; [reflexivity|discriminate].
Qed.

Lemma skip_eq_trunc a b :
  (String.length b < String.length (skip_eq (a +:+ b)))%nat ->
  skip_eq (a +:+ b) = skip_eq a +:+ b.
Proof.
  destruct a as [|c a].
  - rewrite app_empty_l. intros H. pose proof (length_skip_eq b). lia.
  - intros _. apply skip_eq_app. discriminate.
Qed.

Lemma scan_quote_trunc q a b :
  scan_quote q (a +:+ b) = Some b -> scan_quote q a = Some "".
Proof.
  induction a as [|c a IH].
  - rewrite app_empty_l. intros H. apply length_scan_quote in H. lia.
  - rewrite app_cons. cbn. destruct (Chr.only q c).
    + intros [= H]. destruct a as [|d a]; [reflexivity|].
      exfalso. exact (app_length_absurd _ _ _ H).
    + destruct (not_newline c); [exact IH|discriminate].
Qed.

Lemma drop_while_app_self p a b :
  drop_while p (a +:+ b) = b -> drop_while p a = "".
Proof.
  rewrite drop_while_app. destruct (drop_while p a) as [|c r]; [reflexivity|].
  intros H. exfalso. exact (app_length_absurd _ _ _ H).
Qed.

Lemma skip_fraction_trunc r b :
  skip_fraction (r +:+ b) = b -> r <> "" -> skip_fraction r = "".
Proof.
  destruct r as [|c r]; [congruence|]. intros H _.
  destruct r as [|d u].
  - exfalso. change (String c "" +:+ b) with (String c b) in H.
    destruct b as [|d u]; cbn in H; [discriminate|].
    destruct (Chr.only "." c && Chr.is_digit d).
    + pose proof (length_drop_while Chr.is_digit u) as Hl.
      rewrite H in Hl. cbn in Hl. lia.
    + apply (f_equal String.length) in H. cbn in H. lia.
  - rewrite !app_cons in H. cbn [skip_fraction] in *.
    destruct (Chr.only "." c && Chr.is_digit d).
    + apply drop_while_app_self in H. exact H.
    + exfalso. rewrite <- !app_cons in H. exact (app_length_absurd _ _ _ H).
Qed.

(** The literal found in front of [b] is found in front of nothing. *)
Lemma scan_literal_trunc a b :
  scan_literal (a +:+ b) = Some b -> scan_literal a = Some "".
Proof.
  destruct a as [|d t].
  - rewrite app_empty_l. intros H. apply length_scan_literal in H. lia.
  - rewrite app_cons. cbn [scan_literal]. destruct (Chr.is_digit d).
    + intros [= H]. f_equal. rewrite drop_while_app in H.
      destruct (drop_while Chr.is_digit t) as [|c r] eqn:Hr; [reflexivity|].
      apply skip_fraction_trunc in H; [exact H|discriminate].
    + destruct (Chr.only Chr.squote d); [apply scan_quote_trunc|].
      destruct (Chr.only Chr.dquote d); [apply scan_quote_trunc|discriminate].
Qed.

(** The match found in front of [rest] is the match of the text without
    [rest], groups included. *)
Lemma scan_condition_trunc m rest f o v :
  scan_condition (m +:+ rest) = Some (f, o, v, rest) ->
  scan_condition m = Some (f, o, v, "").
Proof.
  unfold scan_condition. cbv zeta.
  destruct (m +:+ rest) as [|c s0] eqn:Es; [discriminate|].
  destruct (Chr.ident_start c) eqn:Hc; [|discriminate].
  remember (drop_while Chr.ident_char s0) as s1 eqn:E1.
  remember (drop_while Chr.is_space s1) as s2 eqn:E2.
  destruct s2 as [|oc s3]; [discriminate|].
  destruct (Chr.cmp_char oc) eqn:Hoc; [|discriminate].
  remember (skip_eq s3) as s3' eqn:E3.
  remember (drop_while Chr.is_space s3') as s4 eqn:E4.
  destruct (scan_literal s4) as [s5|] eqn:E5; [|discriminate].
  intros [= <- <- <- ->].
  pose proof (length_scan_literal _ _ E5) as L5.
  pose proof (length_drop_while Chr.is_space s3') as L4. rewrite <- E4 in L4.
  pose proof (length_skip_eq s3) as L3. rewrite <- E3 in L3.
  pose proof (length_drop_while Chr.is_space s1) as L2. rewrite <- E2 in L2.
  pose proof (length_drop_while Chr.ident_char s0) as L1. rewrite <- E1 in L1.
  cbn [String.length] in L2.
  destruct m as [|c' m0].
  { rewrite app_empty_l in Es. subst rest. cbn [String.length] in L5. lia. }
  rewrite app_cons in Es. injection Es as -> <-. rewrite Hc.
  destruct (drop_while_trunc Chr.ident_char m0 rest) as [T1 N1]; [rewrite <- E1; lia|].
  rewrite T1 in E1. subst s1.
  destruct (drop_while_trunc Chr.is_space (drop_while Chr.ident_char m0) rest)
    as [T2 N2]; [rewrite <- E2; cbn [String.length]; lia|].
  rewrite T2 in E2.
  destruct (drop_while Chr.is_space (drop_while Chr.ident_char m0)) as [|oc' m3] eqn:D2;
    [congruence|].
  rewrite app_cons in E2. injection E2 as -> ->. rewrite Hoc.
  rewrite skip_eq_trunc in E3 by (rewrite <- E3; lia). subst s3'.
  destruct (drop_while_trunc Chr.is_space (skip_eq m3) rest) as [T4 N4];
    [rewrite <- E4; lia|].
  rewrite T4 in E4. subst s4.
  rewrite (scan_literal_trunc _ _ E5).
  rewrite <- !app_cons, !consumed_ext, consumed_app, consumed_all. reflexivity.
Qed.

(** ** Prefix matching of conditions *)

Lemma condition_match_suffix s f o v rest :
  condition_match s = Some (f, o, v, rest) -> exists m, s = m +:+ rest.
Proof.
  unfold condition_match. intros H.
  apply re_k_sound in H as (m1 & r1 & -> & _ & H).
  apply re_k_sound in H as (m2 & r2 & -> & _ & H).
  apply re_k_sound in H as (m3 & r3 & -> & _ & H).
  apply re_k_sound in H as (m4 & r4 & -> & _ & H).
  apply re_k_sound in H as (m5 & r5 & -> & _ & H).
  injection H as _ _ _ ->.
  exists (m1 +:+ m2 +:+ m3 +:+ m4 +:+ m5). rewrite !app_assoc_str. reflexivity.
Qed.

(** The evaluation reads the three groups and nothing else of the text. *)
Lemma evaluate_condition_groups s s' f o v r r' data :
  condition_match s = Some (f, o, v, r) ->
  condition_match s' = Some (f, o, v, r') ->
  evaluate_condition s data = evaluate_condition s' data.
Proof. intros H H'. unfold evaluate_condition. rewrite H, H'. reflexivity. Qed.

Lemma py_int_cases v :
  (exists z, py_int v = Ok z)
  \/ py_int v = Raise (ValueError ("invalid literal for int() with base 10: " +:+ repr v)).
Proof.
  unfold py_int. destruct (scan_sign (conv_strip v)) as [neg t].
  destruct (scan_digits false t) as [[|c ds] [|c' r]]; eauto.
Qed.

Lemma py_float_cases v :
  (exists f, py_float v = Ok f)
  \/ py_float v = Raise (ValueError ("could not convert string to float: " +:+ repr v)).
Proof.
  unfold py_float. destruct (scan_sign (conv_strip v)) as [neg t].
  destruct (scan_digits false t) as [ip r1].
  destruct (match r1 with String "." r => scan_digits false r | _ => (EmptyString, r1) end)
    as [fp r2].
  destruct (negb (nonempty (ip +:+ fp))); [eauto|].
  destruct r2 as [|c r]; [eauto|].
  destruct (Ascii.eqb c "e" || Ascii.eqb c "E"); [|eauto].
  destruct (scan_sign r) as [eneg r'].
  destruct (scan_digits false r') as [[|d ds] [|c' r'']]; eauto.
Qed.

Lemma operators_results op g ord :
  operators !! op = Some g -> (exists b, g ord = Ok b) \/ g ord = Raise TypeError.
Proof.
  unfold operators. intros H.
  repeat (apply lookup_insert_Some in H as [[_ <-]|[_ H]];
          [destruct ord; cbn; eauto|]).
  rewrite lookup_empty in H. discriminate.
Qed.

(** Once the pattern has matched, whatever [evaluate_condition] raises is
    not the invalid-condition error. *)
Lemma matched_not_invalid s f o v rest data t :
  condition_match s = Some (f, o, v, rest) ->
  evaluate_condition s data <> Raise (ValueError (invalid_condition_msg t)).
Proof.
  intros Hm. unfold evaluate_condition, invalid_condition_msg. rewrite Hm.
  destruct (data !! f) as [field_value|]; [|discriminate].
  set (lit := if starts_with_quote v && ends_with_quote v then slice_1_m1 v else v).
  unfold coerce. destruct (numeric field_value).
  - destruct (has_char "." lit).
    + destruct (py_float_cases lit) as [[x ->]| ->]; [|discriminate]. cbn.
      destruct (operators !! _) as [g|] eqn:Hg; [|discriminate].
      destruct (operators_results _ _ (py_order field_value (LFloat x)) Hg)
        as [[b ->]| ->]; discriminate.
    + destruct (py_int_cases lit) as [[x ->]| ->]; [|discriminate]. cbn.
      destruct (operators !! _) as [g|] eqn:Hg; [|discriminate].
      destruct (operators_results _ _ (py_order field_value (LInt x)) Hg)
        as [[b ->]| ->]; discriminate.
  - cbn. destruct (operators !! _) as [g|] eqn:Hg; [|discriminate].
    destruct (operators_results _ _ (py_order field_value (LStr lit)) Hg)
      as [[b ->]| ->]; discriminate.
Qed.

(** C10: matching is by prefix.  When a text [p] is a well-shaped
    condition, [p] followed by any extra text still matches, with the same
    field and comparator, so the invalid-condition error is not raised; the
    result is that of the matched prefix alone, the text after the match
    being ignored; and when the extra text cannot continue a number the
    matched prefix is [p] itself. *)
Theorem condition_matching_is_prefix_only p extra f o v :
  condition_match p = Some (f, o, v, "") ->
  (exists v' rest,
     condition_match (p +:+ extra) = Some (f, o, v', rest)
     /\ (literal_stops extra = true -> v' = v /\ rest = extra))
  /\ (forall data t,
        evaluate_condition (p +:+ extra) data
        <> Raise (ValueError (invalid_condition_msg t)))
  /\ (exists m rest v',
        p +:+ extra = m +:+ rest
        /\ condition_match m = Some (f, o, v', "")
        /\ forall data,
             evaluate_condition (p +:+ extra) data = evaluate_condition m data)
  /\ (literal_stops extra = true ->
      forall data, evaluate_condition (p +:+ extra) data = evaluate_condition p data).
Proof.
  intros Hp. pose proof Hp as Hs. rewrite condition_match_scan in Hs.
  destruct (scan_condition_app p extra f o v Hs) as (v' & rest & Hext & Hstop).
  rewrite <- condition_match_scan in Hext.
  split; [eauto|]. split; [|split].
  - intros data t. eapply matched_not_invalid, Hext.
  - destruct (condition_match_suffix _ _ _ _ _ Hext) as [m Hm].
    exists m, rest, v'. split; [exact Hm|].
    assert (Hmatch : condition_match m = Some (f, o, v', "")).
    { rewrite condition_match_scan. apply (scan_condition_trunc m rest).
      rewrite <- Hm, <- condition_match_scan. exact Hext. }
    split; [exact Hmatch|].
    intros data. eapply evaluate_condition_groups; eauto.
  - intros Hstops data. destruct (Hstop Hstops) as [-> ->].
    eapply evaluate_condition_groups; eauto.
Qed.

Lemma condition_matching_is_prefix_only_witness :
  evaluate_condition "age > 30 extra junk" (<["age" := VInt 31]> ∅)
  = evaluate_condition "age > 30" (<["age" := VInt 31]> ∅).
Proof.
  apply (condition_matching_is_prefix_only "age > 30" " extra junk" "age" ">" "30");
    vm_compute; reflexivity.
Defined.

(** The same through the public interface: an operand node deserialized
    from an attribute map evaluates on the matched prefix of its text. *)
Example deserialized_operand_with_trailing_text :
  (ast ← json_to_node
           (VDict (<["node_type" := VStr "operand"]>
                   (<["value" := VStr "age > 30 extra junk"]> ∅)));
   evaluate_rule (Some ast) (<["age" := VInt 31]> ∅))
  = Ok true.
Proof. vm_compute. reflexivity. Qed.

(** ** Further properties of the parser *)

Ltac leaves :=
  cbn [leaves_ok]; repeat split; try discriminate; vm_compute; reflexivity.

Lemma precedence_Some op q :
  precedence !! op = Some q -> (op = "AND" /\ q = 1%Z) \/ (op = "OR" /\ q = 0%Z).
Proof.
  unfold precedence. intros H.
  apply lookup_insert_Some in H as [[<- <-]|[_ H]]; [auto|].
  apply lookup_insert_Some in H as [[<- <-]|[_ H]]; [auto|].
  rewrite lookup_empty in H. discriminate.
Qed.

Lemma precedence_not_paren op q : precedence !! op = Some q -> String.eqb op "(" = false.
Proof. intros H. apply precedence_Some in H as [[-> _]|[-> _]]; reflexivity. Qed.

Lemma collapse_app ops1 : forall ops2 out,
  collapse (ops1 ++ ops2) out = (out' ← collapse ops1 out; collapse ops2 out').
Proof.
  induction ops1 as [|op ops1 IH]; intros ops2 out; [reflexivity|].
  cbn [app collapse]. destruct out as [|r [|l out]]; try reflexivity. apply IH.
Qed.

Lemma pop_operators_pending q pend : forall ops out out',
  pending q pend -> closed q ops ->
  collapse pend out = Ok out' ->
  pop_operators q (pend ++ ops) out = Ok (ops, out').
Proof.
  induction pend as [|op pend IH]; intros ops out out' Hp Hc Hcol.
  - injection Hcol as ->. destruct ops as [|op ops]; [reflexivity|].
    cbn in *. destruct (precedence !! op) as [q'|]; [|reflexivity].
    rewrite (proj2 (Z.leb_gt q q')) by exact Hc. reflexivity.
  - apply Forall_cons in Hp as [(q' & Hq & Hle) Hp].
    cbn [app pop_operators collapse] in *. rewrite Hq, (proj2 (Z.leb_le q q')) by exact Hle.
    destruct out as [|r [|l out]]; try discriminate. apply IH; assumption.
Qed.

Lemma close_paren_pending p pend : forall ops out out',
  pending p pend ->
  collapse pend out = Ok out' ->
  close_paren (pend ++ "(" :: ops) out = Ok (ops, out').
Proof.
  induction pend as [|op pend IH]; intros ops out out' Hp Hcol.
  - injection Hcol as ->. reflexivity.
  - apply Forall_cons in Hp as [(q' & Hq & _) Hp].
    cbn [app close_paren collapse] in *. rewrite (precedence_not_paren _ _ Hq).
    destruct out as [|r [|l out]]; try discriminate. apply IH; assumption.
Qed.

Lemma closed_mono p q ops : (p <= q)%Z -> closed p ops -> closed q ops.
Proof.
  unfold closed. destruct ops as [|op ops]; [auto|].
  destruct (precedence !! op); [lia|auto].
Qed.

Lemma pending_mono p q ops : (p <= q)%Z -> pending q ops -> pending p ops.
Proof.
  intros Hpq H. unfold pending in *. eapply Forall_impl; [exact H|].
  intros op (q' & Hq & Hle). exists q'. split; [exact Hq|lia].
Qed.

Lemma parse_loop_open rest output operators :
  parse_loop ("(" :: rest) output operators = parse_loop rest output ("(" :: operators).
Proof. reflexivity. Qed.

Lemma parse_loop_close rest output operators :
  parse_loop (")" :: rest) output operators =
    match close_paren operators output with
    | Ok (operators', output') => parse_loop rest output' operators'
    | Raise e => Raise e
    end.
Proof. reflexivity. Qed.

(** What [parse_loop] has done once it has read an expression written at
    level [p] over a stack closed at that level: the operands are on the
    output stack and the operators still waiting reduce them to the tree of
    the expression. *)
Lemma parse_loop_show e : leaves_ok e -> forall p rest out ops,
  closed p ops ->
  exists out' pend,
    parse_loop (show p e ++ rest) out ops = parse_loop rest out' (pend ++ ops)
    /\ collapse pend out' = Ok (tree e :: out)
    /\ pending p pend.
Proof.
  induction e as [field op lit|l IHl r IHr|l IHl r IHr]; intros Hok p rest out ops Hc.
  - exists (tree (Leaf field op lit) :: out), [].
    split; [apply parse_loop_leaf, Hok|]. split; [reflexivity|constructor].
  - destruct Hok as [Hl Hr].
    assert (Hbody : forall rest out ops, closed 1 ops ->
      parse_loop ((show 1 l ++ "AND" :: show 2 r) ++ rest) out ops
      = parse_loop rest (tree r :: tree l :: out) ("AND" :: ops)).
    { intros rest' out0 ops0 Hc0. rewrite <- app_assoc. cbn [app].
      destruct (IHl Hl 1%Z ("AND" :: show 2 r ++ rest') out0 ops0 Hc0)
        as (out1 & pend1 & -> & Hcol1 & Hp1).
      rewrite parse_loop_AND, (pop_operators_pending _ _ _ _ _ Hp1 Hc0 Hcol1).
      destruct (IHr Hr 2%Z rest' (tree l :: out0) ("AND" :: ops0))
        as (out2 & pend2 & -> & Hcol2 & Hp2);
        [unfold closed; rewrite precedence_AND; lia|].
      destruct pend2 as [|op2 pend2].
      - injection Hcol2 as ->. reflexivity.
      - apply Forall_cons in Hp2 as [(q & Hq & Hle) _].
        apply precedence_Some in Hq as [[_ ->]|[_ ->]]; lia. }
    cbn [show]. destruct (1 <? p)%Z eqn:Hp; cbn [paren_if].
    + exists (tree (And l r) :: out), []. split; [|split; [reflexivity|constructor]].
      cbn [app]. rewrite parse_loop_open, <- app_assoc, Hbody by exact I.
      cbn [app]. rewrite parse_loop_close. reflexivity.
    + apply Z.ltb_ge in Hp. exists (tree r :: tree l :: out), ["AND"].
      split; [apply Hbody, (closed_mono p); [lia|exact Hc]|].
      split; [reflexivity|]. repeat constructor. exists 1%Z. split; [reflexivity|lia].
  - destruct Hok as [Hl Hr].
    assert (Hbody : forall rest out ops, closed 0 ops ->
      exists out' pend,
        parse_loop ((show 0 l ++ "OR" :: show 1 r) ++ rest) out ops
        = parse_loop rest out' (pend ++ "OR" :: ops)
        /\ collapse pend out' = Ok (tree r :: tree l :: out)
        /\ pending 1 pend).
    { intros rest' out0 ops0 Hc0. rewrite <- app_assoc. cbn [app].
      destruct (IHl Hl 0%Z ("OR" :: show 1 r ++ rest') out0 ops0 Hc0)
        as (out1 & pend1 & -> & Hcol1 & Hp1).
      rewrite parse_loop_OR, (pop_operators_pending _ _ _ _ _ Hp1 Hc0 Hcol1).
      destruct (IHr Hr 1%Z rest' (tree l :: out0) ("OR" :: ops0))
        as (out2 & pend2 & -> & Hcol2 & Hp2);
        [unfold closed; rewrite precedence_OR; lia|]. eauto. }
    cbn [show]. destruct (0 <? p)%Z eqn:Hp; cbn [paren_if].
    + exists (tree (Or l r) :: out), []. split; [|split; [reflexivity|constructor]].
      cbn [app]. rewrite parse_loop_open, <- app_assoc.
      destruct (Hbody ([")"] ++ rest) out ("(" :: ops) I) as (out' & pend & -> & Hcol & Hpend).
      cbn [app]. rewrite parse_loop_close.
      assert (Hcl : close_paren (pend ++ "OR" :: "(" :: ops) out'
                    = Ok (ops, tree (Or l r) :: out)).
      { change (pend ++ "OR" :: "(" :: ops) with (pend ++ ["OR"] ++ "(" :: ops).
        rewrite app_assoc. apply (close_paren_pending 0).
        - apply Forall_app. split; [apply (pending_mono 0 1); [lia|exact Hpend]|].
          repeat constructor. exists 0%Z. split; [reflexivity|lia].
        - rewrite collapse_app, Hcol. reflexivity. }
      rewrite Hcl. reflexivity.
    + apply Z.ltb_ge in Hp.
      destruct (Hbody rest out ops) as (out' & pend & Heq & Hcol & Hpend);
        [apply (closed_mono p); [lia|exact Hc]|].
      exists out', (pend ++ ["OR"]).
      split; [rewrite <- (app_assoc pend ["OR"] ops); exact Heq|]. split.
      * rewrite collapse_app, Hcol. reflexivity.
      * apply Forall_app. split; [apply (pending_mono p 1); [lia|exact Hpend]|].
        repeat constructor. exists 0%Z. split; [reflexivity|lia].
Qed.

(** X1: an expression written with AND above OR, operators grouping to the
    left and parentheses where the grouping needs them parses back to its
    tree, whatever the expression. *)
Theorem parse_show e p : leaves_ok e -> parse (show p e) = Ok (tree e).
Proof.
  intros Hok. unfold parse.
  destruct (parse_loop_show e Hok p [] [] [] I) as (out' & pend & Heq & Hcol & _).
  rewrite app_nil_r in Heq. rewrite Heq, parse_loop_nil, app_nil_r. cbn.
  rewrite Hcol. reflexivity.
Qed.

Lemma parse_show_witness :
  parse ["a"; ">"; "1"; "OR"; "b"; "<"; "2"; "AND";
         "("; "c"; "=="; "3"; "OR"; "d"; "!="; "4"; ")"]
  = Ok (operator_node "OR" (operand_node "a > 1")
          (operator_node "AND" (operand_node "b < 2")
             (operator_node "OR" (operand_node "c == 3") (operand_node "d != 4")))).
Proof.
  apply (parse_show
           (Or (Leaf "a" ">" "1")
               (And (Leaf "b" "<" "2") (Or (Leaf "c" "==" "3") (Leaf "d" "!=" "4"))))
           0).
  leaves.
Defined.

Lemma collapse_length ops : forall out out',
  collapse ops out = Ok out' -> length out = (length ops + length out')%nat.
Proof.
  induction ops as [|op ops IH]; intros out out'; cbn.
  - intros [= ->]. reflexivity.
  - destruct out as [|r [|l out]]; try discriminate.
    intros H. apply IH in H. cbn in *. lia.
Qed.


Lemma collapse_short ops : forall out,
  ops <> [] -> (length out <= length ops)%nat ->
  collapse ops out = Raise (ValueError "Incomplete expression at end of parsing").
Proof.
  induction ops as [|op ops IH]; intros out Hne Hlen; [congruence|]. cbn.
  destruct out as [|r [|l out]]; try reflexivity.
  apply IH; [|cbn in *; lia]. intros ->. cbn in Hlen. lia.
Qed.

Lemma pop_operators_enough q ops : forall out,
  length out = S (length ops) ->
  exists ops' out',
    pop_operators q ops out = Ok (ops', out') /\ length out' = S (length ops').
Proof.
  induction ops as [|op ops IH]; intros out Hlen; cbn; [eauto|].
  destruct (precedence !! op) as [q'|]; [|eauto].
  destruct (q <=? q')%Z; [|eauto].
  destruct out as [|r [|l out]]; cbn in Hlen; try lia.
  apply IH. cbn. lia.
Qed.

Lemma close_paren_unmatched p pend : forall out out',
  pending p pend ->
  collapse pend out = Ok out' ->
  close_paren pend out = Raise IndexError.
Proof.
  induction pend as [|op pend IH]; intros out out' Hp Hcol; [reflexivity|].
  apply Forall_cons in Hp as [(q' & Hq & _) Hp].
  cbn [close_paren collapse] in *. rewrite (precedence_not_paren _ _ Hq).
  destruct out as [|r [|l out]]; try discriminate. eapply IH; eassumption.
Qed.

(** The state of [parse_loop] at the end of a whole expression. *)
Lemma parse_loop_show_end e p rest :
  leaves_ok e ->
  exists out pend,
    parse_loop (show p e ++ rest) [] [] = parse_loop rest out pend
    /\ collapse pend out = Ok [tree e]
    /\ pending p pend.
Proof.
  intros Hok.
  destruct (parse_loop_show e Hok p rest [] [] I) as (out & pend & Heq & Hcol & Hp).
  rewrite app_nil_r in Heq. eauto.
Qed.

(** X2: an expression followed by a dangling AND or OR is rejected with the
    [ValueError] of the final reduction. *)
Theorem parse_dangling_operator e p kw :
  leaves_ok e -> kw = "AND" \/ kw = "OR" ->
  parse (show p e ++ [kw])
  = Raise (ValueError "Incomplete expression at end of parsing").
Proof.
  intros Hok Hkw. unfold parse.
  destruct (parse_loop_show_end e p [kw] Hok) as (out & pend & -> & Hcol & _).
  apply collapse_length in Hcol. cbn in Hcol.
  assert (Hlen : length out = S (length pend)) by lia.
  assert (Hstep : exists q, parse_loop [kw] out pend =
            match pop_operators q pend out with
            | Ok (operators', output') => Ok (output', kw :: operators')
            | Raise e => Raise e
            end).
  { destruct Hkw as [-> | ->]; [exists 1%Z|exists 0%Z]; reflexivity. }
  destruct Hstep as [q ->].
  destruct (pop_operators_enough q pend out Hlen) as (ops' & out' & -> & Hlen').
  cbn [mbind result_bind]. rewrite collapse_short; [reflexivity|discriminate|cbn; lia].
Qed.

Lemma parse_dangling_operator_witness :
  parse ["a"; ">"; "1"; "AND"; "b"; ">"; "2"; "OR"]
  = Raise (ValueError "Incomplete expression at end of parsing").
Proof.
  apply (parse_dangling_operator (And (Leaf "a" ">" "1") (Leaf "b" ">" "2")) 0 "OR");
    [leaves|right; reflexivity].
Defined.



(** X4: an opening parenthesis that is never closed, in front of a whole
    expression, is rejected with a [ValueError]. *)
Theorem parse_unclosed_paren e p :
  leaves_ok e ->
  parse ("(" :: show p e)
  = Raise (ValueError "Incomplete expression at end of parsing").
Proof.
  intros Hok. unfold parse. rewrite parse_loop_open.
  destruct (parse_loop_show e Hok p [] [] ["("] I) as (out & pend & Heq & Hcol & _).
  rewrite app_nil_r in Heq. rewrite Heq, parse_loop_nil. cbn [mbind result_bind].
  rewrite collapse_app, Hcol. reflexivity.
Qed.

Lemma parse_unclosed_paren_witness :
  parse ["("; "a"; ">"; "1"; "OR"; "b"; ">"; "2"]
  = Raise (ValueError "Incomplete expression at end of parsing").
Proof.
  apply (parse_unclosed_paren (Or (Leaf "a" ">" "1") (Leaf "b" ">" "2")) 0). leaves.
Defined.

(** X5: a closing parenthesis after a whole expression, with no opening
    parenthesis before, makes [parse] raise [IndexError], whatever the
    expression. *)
Theorem parse_extra_closing_paren e p :
  leaves_ok e -> parse (show p e ++ [")"]) = Raise IndexError.
Proof.
  intros Hok. unfold parse.
  destruct (parse_loop_show_end e p [")"] Hok) as (out & pend & -> & Hcol & Hp).
  rewrite parse_loop_close, (close_paren_unmatched _ _ _ _ Hp Hcol). reflexivity.
Qed.

Lemma parse_extra_closing_paren_witness :
  parse ["a"; ">"; "1"; "OR"; "b"; ">"; "2"; ")"] = Raise IndexError.
Proof.
  apply (parse_extra_closing_paren (Or (Leaf "a" ">" "1") (Leaf "b" ">" "2")) 0). leaves.
Defined.



Lemma close_paren_parsed ops : forall out ops' out',
  stack_marks ops -> Forall parsed out ->
  close_paren ops out = Ok (ops', out') ->
  stack_marks ops' /\ Forall parsed out'.
Proof.
  induction ops as [|op ops IH]; intros out ops' out' Hops Hout; cbn; [discriminate|].
  apply Forall_cons in Hops as [Hop Hops].
  destruct (String.eqb op "("); [intros [= <- <-]; auto|].
  destruct out as [|r [|l out]]; try discriminate.
  apply Forall_cons in Hout as [Hr Hout]. apply Forall_cons in Hout as [Hl Hout].
  apply IH; [exact Hops|]. constructor; [constructor; assumption|exact Hout].
Qed.

Lemma pop_operators_parsed q ops : forall out ops' out',
  stack_marks ops -> Forall parsed out ->
  pop_operators q ops out = Ok (ops', out') ->
  stack_marks ops' /\ Forall parsed out'.
Proof.
  induction ops as [|op ops IH]; intros out ops' out' Hops Hout; cbn.
  - intros [= <- <-]. auto.
  - pose proof Hops as Hops0. apply Forall_cons in Hops as [Hop Hops].
    destruct (precedence !! op) as [q'|]; [|intros [= <- <-]; auto].
    destruct (q <=? q')%Z; [|intros [= <- <-]; auto].
    destruct out as [|r [|l out]]; try discriminate.
    apply Forall_cons in Hout as [Hr Hout]. apply Forall_cons in Hout as [Hl Hout].
    apply IH; [exact Hops|]. constructor; [constructor; assumption|exact Hout].
Qed.

Lemma collapse_parsed ops : forall out out',
  stack_marks ops -> Forall parsed out ->
  collapse ops out = Ok out' -> Forall parsed out'.
Proof.
  induction ops as [|op ops IH]; intros out out' Hops Hout; cbn.
  - intros [= <-]. exact Hout.
  - apply Forall_cons in Hops as [Hop Hops].
    destruct out as [|r [|l out]]; try discriminate.
    apply Forall_cons in Hout as [Hr Hout]. apply Forall_cons in Hout as [Hl Hout].
    apply IH; [exact Hops|]. constructor; [constructor; assumption|exact Hout].
Qed.

Lemma parse_loop_parsed n : forall tokens out ops out' ops',
  (length tokens <= n)%nat ->
  stack_marks ops -> Forall parsed out ->
  parse_loop tokens out ops = Ok (out', ops') ->
  stack_marks ops' /\ Forall parsed out'.
Proof.
  induction n as [|n IH]; intros tokens out ops out' ops' Hlen Hops Hout.
  - destruct tokens; [|cbn in Hlen; lia]. intros [= <- <-]. auto.
  - destruct tokens as [|token rest]; [intros [= <- <-]; auto|].
    cbn [length] in Hlen. cbn [parse_loop].
    destruct (String.eqb token "(") eqn:Hopen.
    { apply String.eqb_eq in Hopen as ->. apply IH; [lia| |exact Hout].
      constructor; auto. }
    destruct (String.eqb token ")").
    { destruct (close_paren ops out) as [[ops1 out1]|e] eqn:Hcl; [|discriminate].
      destruct (close_paren_parsed _ _ _ _ Hops Hout Hcl).
      apply IH; [lia|assumption..]. }
    destruct (precedence !! token) as [q|] eqn:Hq.
    { destruct (pop_operators q ops out) as [[ops1 out1]|e] eqn:Hpop; [|discriminate].
      destruct (pop_operators_parsed _ _ _ _ _ Hops Hout Hpop).
      apply IH; [lia| |assumption]. constructor; [|assumption].
      apply precedence_Some in Hq as [[-> _]|[-> _]]; auto. }
    destruct (matches ident_pattern token); [|discriminate].
    destruct rest as [|t1 [|t2 rest']]; try discriminate.
    destruct (matches cmp_run_pattern t1); [|discriminate].
    apply IH; [cbn [length] in Hlen; lia|exact Hops|].
    constructor; [constructor|exact Hout].
Qed.

Lemma parse_parsed tokens t : parse tokens = Ok t -> parsed t.
Proof.
  unfold parse. destruct (parse_loop tokens [] []) as [[out ops]|e] eqn:Hloop;
    [|discriminate].
  destruct (parse_loop_parsed (length tokens) tokens [] [] out ops) as [Hops Hout];
    [lia|constructor|constructor|exact Hloop|].
  cbn [mbind result_bind].
  destruct (collapse ops out) as [out'|e] eqn:Hcol; [|discriminate]. cbn.
  pose proof (collapse_parsed _ _ _ Hops Hout Hcol) as Hall.
  destruct out' as [|ast [|]]; try discriminate.
  intros [= <-]. apply Forall_cons in Hall as [H _]. exact H.
Qed.

(** X7: whatever the tokens, a tree that [parse] returns is made of operand
    nodes without children and of operator nodes with exactly two children,
    whose value is AND, OR or an opening parenthesis. *)
Theorem parse_shape tokens t : parse tokens = Ok t -> parsed t.
Proof. apply parse_parsed. Qed.

Lemma parse_shape_witness :
  parsed (operator_node "AND" (operand_node "a > 1") (operand_node "b > 2")).
Proof.
  apply (parse_shape ["a"; ">"; "1"; "AND"; "b"; ">"; "2"]). vm_compute. reflexivity.
Defined.

(** ** Further properties of the evaluator *)

Lemma number_order_defined x y : number_order x y <> NoOrder.
Proof.
  destruct x as [|a|m1 e1], y as [|b|m2 e2]; cbn; try discriminate.
  - destruct (Bool.eqb a b); [discriminate|]. destruct a; discriminate.
  - destruct a; discriminate.
  - destruct b; discriminate.
  - destruct (_ ?= _)%Z; discriminate.
Qed.

Lemma coerce_order_defined field_value lit value :
  scalar field_value ->
  coerce field_value value = Ok lit ->
  py_order field_value lit <> NoOrder.
Proof.
  unfold coerce, py_order. intros Hs.
  destruct (numeric field_value) as [n|] eqn:Hn.
  - destruct (has_char "." value).
    + destruct (py_float value); cbn; [|discriminate].
      intros [= <-]. apply number_order_defined.
    + destruct (py_int value); cbn; [|discriminate].
      intros [= <-]. apply number_order_defined.
  - intros [= <-]. destruct field_value; cbn in *; try discriminate; try tauto.
    destruct (String.compare s value); discriminate.
Qed.

Lemma operators_defined op g ord :
  operators !! op = Some g -> ord <> NoOrder -> exists b, g ord = Ok b.
Proof.
  unfold operators. intros H Hord.
  repeat (apply lookup_insert_Some in H as [[_ <-]|[_ H]];
          [destruct ord; cbn; eauto; congruence|]).
  rewrite lookup_empty in H. discriminate.
Qed.

Lemma evaluate_condition_scalar operand data e :
  scalar_record data ->
  evaluate_condition operand data = Raise e -> exists msg, e = ValueError msg.
Proof.
  intros Hdata. unfold evaluate_condition.
  destruct (condition_match operand) as [[[[f o] v] rest]|]; [|intros [= <-]; eauto].
  destruct (data !! f) as [field_value|] eqn:Hf; [|intros [= <-]; eauto].
  apply Hdata in Hf.
  set (lit := if starts_with_quote v && ends_with_quote v then slice_1_m1 v else v).
  destruct (coerce field_value lit) as [l|e'] eqn:Hco.
  - cbn [mbind result_bind].
    destruct (operators !! _) as [g|] eqn:Hg; [|intros [= <-]; eauto].
    destruct (operators_defined _ _ _ Hg (coerce_order_defined _ _ _ Hf Hco)) as [b ->].
    discriminate.
  - cbn [mbind result_bind]. intros [= <-]. revert Hco. unfold coerce.
    destruct (numeric field_value); [|discriminate].
    destruct (has_char "." lit).
    + destruct (py_float_cases lit) as [[x ->]| ->]; [discriminate|]. intros [= <-]. eauto.
    + destruct (py_int_cases lit) as [[x ->]| ->]; [discriminate|]. intros [= <-]. eauto.
Qed.

(** X8: on a record whose values are numbers and strings, the evaluation
    of a tree built by [parse] returns a boolean or raises a [ValueError]:
    no other exception comes out. *)
Theorem evaluate_parsed_scalar tokens t data e :
  parse tokens = Ok t ->
  scalar_record data ->
  evaluate_rule (Some t) data = Raise e -> exists msg, e = ValueError msg.
Proof.
  intros Hparse Hdata. apply parse_parsed in Hparse. revert e.
  induction Hparse as [condition|op l r Hop Hl IHl Hr IHr]; intros e.
  - rewrite evaluate_rule_operand. apply evaluate_condition_scalar, Hdata.
  - unfold operator_node. rewrite evaluate_rule_operator.
    destruct (evaluate_rule (Some l) data) as [bl|el] eqn:El.
    + destruct (evaluate_rule (Some r) data) as [br|er] eqn:Er; [discriminate|].
      cbn. intros [= <-]. apply IHr. reflexivity.
    + cbn. intros [= <-]. apply IHl. reflexivity.
Qed.

Lemma evaluate_parsed_scalar_witness :
  exists msg,
    evaluate_rule (Some (operand_node "age > 'abc'")) (<["age" := VInt 3]> ∅)
    = Raise (ValueError msg).
Proof.
  destruct (evaluate_rule (Some (operand_node "age > 'abc'")) (<["age" := VInt 3]> ∅))
    as [b|e] eqn:E; [vm_compute in E; discriminate E|].
  destruct (evaluate_parsed_scalar ["age"; ">"; "'abc'"] (operand_node "age > 'abc'")
              (<["age" := VInt 3]> ∅) e) as [msg ->].
  - vm_compute. reflexivity.
  - intros field v [[_ <-]|[_ H]]%lookup_insert_Some; [exact I|].
    rewrite lookup_empty in H. discriminate H.
  - exact E.
  - exists msg. reflexivity.
Defined.

Lemma evaluate_tree val e data :
  (forall c, In c (conditions e) -> evaluate_condition c data = Ok (val c)) ->
  evaluate_rule (Some (tree e)) data = Ok (formula val e).
Proof.
  induction e as [field op lit|l IHl r IHr|l IHl r IHr]; intros H; cbn [tree formula].
  - rewrite evaluate_rule_operand. apply H. left. reflexivity.
  - unfold operator_node. rewrite evaluate_rule_operator, IHl, IHr; [reflexivity|..];
      intros c Hc; apply H; cbn [conditions]; apply in_or_app; auto.
  - unfold operator_node. rewrite evaluate_rule_operator, IHl, IHr; [reflexivity|..];
      intros c Hc; apply H; cbn [conditions]; apply in_or_app; auto.
Qed.

(** X9: parsing a written expression and evaluating the tree gives the
    truth value of the expression, AND as conjunction and OR as
    disjunction, when every leaf condition evaluates to a boolean. *)
Theorem parse_then_evaluate val e p data :
  leaves_ok e ->
  (forall c, In c (conditions e) -> evaluate_condition c data = Ok (val c)) ->
  (ast ← parse (show p e); evaluate_rule (Some ast) data) = Ok (formula val e).
Proof.
  intros Hok Hval. unfold parse.
  destruct (parse_loop_show_end e p [] Hok) as (out & pend & Heq & Hcol & _).
  rewrite app_nil_r in Heq. rewrite Heq, parse_loop_nil. cbn [mbind result_bind].
  rewrite Hcol. cbn [mbind result_bind]. apply evaluate_tree, Hval.
Qed.

Lemma parse_then_evaluate_witness :
  (ast ← parse ["a"; ">"; "1"; "AND"; "b"; ">"; "2"; "OR"; "c"; ">"; "3"];
   evaluate_rule (Some ast) (<["a" := VInt 2]> (<["b" := VInt 0]> (<["c" := VInt 5]> ∅))))
  = Ok true.
Proof.
  apply (parse_then_evaluate
           (fun c => String.eqb c "a > 1" || String.eqb c "c > 3")
           (Or (And (Leaf "a" ">" "1") (Leaf "b" ">" "2")) (Leaf "c" ">" "3")) 0).
  - leaves.
  - intros c [<-|[<-|[<-|[]]]]; vm_compute; reflexivity.
Defined.





(** X11: with the same field and literal, the comparator [=] gives what
    [==] gives, and [!=] gives the negation; neither raises where [==]
    returns. *)
Theorem equality_operators s_eq s_one s_ne field lit r1 r2 r3 data :
  condition_match s_eq = Some (field, "==", lit, r1) ->
  condition_match s_one = Some (field, "=", lit, r2) ->
  condition_match s_ne = Some (field, "!=", lit, r3) ->
  evaluate_condition s_one data = evaluate_condition s_eq data
  /\ evaluate_condition s_ne data
     = (b ← evaluate_condition s_eq data; Ok (negb b)).
Proof.
  intros H1 H2 H3. unfold evaluate_condition. rewrite H1, H2, H3.
  destruct (data !! field) as [field_value|]; [|split; reflexivity].
  destruct (coerce field_value _) as [l|e]; [|split; reflexivity].
  cbn [mbind result_bind].
  change (operators !! (if String.eqb "==" "=" then "==" else "==")) with (Some is_eq).
  change (operators !! (if String.eqb "=" "=" then "==" else "=")) with (Some is_eq).
  change (operators !! (if String.eqb "!=" "=" then "==" else "!=")) with (Some is_ne).
  split; [reflexivity|]. destruct (py_order field_value l); reflexivity.
Qed.

Lemma equality_operators_witness :
  evaluate_condition "age = 30" (<["age" := VInt 30]> ∅)
  = evaluate_condition "age == 30" (<["age" := VInt 30]> ∅)
  /\ evaluate_condition "age != 30" (<["age" := VInt 30]> ∅)
     = (b ← evaluate_condition "age == 30" (<["age" := VInt 30]> ∅); Ok (negb b)).
Proof.
  apply (equality_operators "age == 30" "age = 30" "age != 30" "age" "30" "" "" "");
    vm_compute; reflexivity.
Defined.

(** ** Further properties of the tokenizer *)

(** [re.split] cuts the text and loses none of it. *)
Lemma join_re_split_from r fuel : forall s gap,
  join (re_split_from fuel r s gap) = gap +:+ s.
Proof.
  induction fuel as [|fuel IH]; intros s gap.
  - destruct s; cbn; rewrite app_empty_r; reflexivity.
  - destruct s as [|c s]; [cbn; rewrite !app_empty_r; reflexivity|].
    cbn [re_split_from].
    assert (Hskip : join (re_split_from fuel r s (gap +:+ String c "")) = gap +:+ String c s).
    { rewrite IH, app_assoc_str. reflexivity. }
    destruct (re_match r (String c s)) as [rest|] eqn:Hm; [|exact Hskip].
    destruct (String.length rest <? String.length (String c s))%nat; [|exact Hskip].
    apply re_match_sound in Hm as (m & Hs & _ & ->).
    cbn [join]. rewrite IH, Hs. reflexivity.
Qed.

Lemma visible_app a b : visible (a +:+ b) = visible a +:+ visible b.
Proof.
  induction a as [|c a IH]; [reflexivity|]. rewrite app_cons. cbn.
  destruct (Chr.is_space c); [exact IH|]. rewrite app_cons, IH. reflexivity.
Qed.

Lemma rstrip_visible c s : Chr.is_space c = false -> rstrip (String c s) <> "".
Proof. intros Hc. cbn. destruct (rstrip s); [rewrite Hc|]; discriminate. Qed.

Lemma strip_empty s : strip s = "" -> visible s = "".
Proof.
  unfold strip. induction s as [|c s IH]; [reflexivity|]. cbn [lstrip visible].
  destruct (Chr.is_space c) eqn:Hc; [exact IH|].
  intros H. exfalso. exact (rstrip_visible _ _ Hc H).
Qed.

Lemma visible_join_filter pieces :
  visible (join (filter (fun token => nonempty (strip token) = true) pieces))
  = visible (join pieces).
Proof.
  induction pieces as [|p pieces IH]; [reflexivity|].
  rewrite filter_cons. cbn [join]. destruct (decide _) as [Hp|Hp].
  - cbn [join]. rewrite !visible_app, IH. reflexivity.
  - rewrite visible_app, IH, (strip_empty p); [reflexivity|].
    destruct (strip p); [reflexivity|]. exfalso. apply Hp. reflexivity.
Qed.


Lemma all_chars_app p a b : all_chars p (a +:+ b) = all_chars p a && all_chars p b.
Proof.
  induction a as [|c a IH]; [reflexivity|]. rewrite app_cons. cbn.
  rewrite IH, andb_assoc. reflexivity.
Qed.

Lemma visible_all_space s : all_chars Chr.is_space s = true -> visible s = "".
Proof.
  induction s as [|c s IH]; [reflexivity|]. cbn.
  destruct (Chr.is_space c); [exact IH|discriminate].
Qed.

Lemma visible_empty_join tokens :
  visible (join tokens) = "" ->
  Forall (fun token => nonempty (strip token) = true) tokens ->
  tokens = [].
Proof.
  destruct tokens as [|t tokens]; [reflexivity|]. cbn [join]. rewrite visible_app.
  intros Hv Hall. apply Forall_cons in Hall as [Ht _]. exfalso.
  assert (Hvt : visible t = "") by (destruct (visible t); [reflexivity|discriminate]).
  clear Hv. unfold strip in Ht. induction t as [|c t IH]; [discriminate|].
  cbn [visible lstrip] in *. destruct (Chr.is_space c); [auto|discriminate].
Qed.

Lemma tokenize_blank s : all_chars Chr.is_space s = true -> tokenize s = [].
Proof.
  intros Hs. apply visible_empty_join.
  - unfold tokenize, re_split. rewrite visible_join_filter, join_re_split_from. apply visible_all_space, Hs.
  - unfold tokenize. apply Forall_forall. intros t Ht.
    apply list_elem_of_filter in Ht as [Ht _]. exact Ht.
Qed.

Lemma visible_empty_all_space s : visible s = "" -> all_chars Chr.is_space s = true.
Proof.
  induction s as [|c s IH]; [reflexivity|]. cbn.
  destruct (Chr.is_space c); [exact IH|discriminate].
Qed.

(** X13: a text yields no token exactly when it is blank, and [create_rule]
    rejects a blank text with a [ValueError]: the one of the empty rule when
    the text is empty, the one of the missing tokens otherwise. *)
Theorem create_rule_blank s :
  (tokenize s = [] <-> all_chars Chr.is_space s = true)
  /\ (all_chars Chr.is_space s = true ->
      create_rule s
      = Raise (ValueError (if nonempty s
                           then "rule_string did not produce any tokens"
                           else "rule_string must not be null or empty"))).
Proof.
  split; [split|].
  - intros H. apply visible_empty_all_space.
    assert (Hv : visible (join (tokenize s)) = visible s).
    { unfold tokenize, re_split. rewrite visible_join_filter, join_re_split_from.
      reflexivity. }
    rewrite H in Hv. symmetry. exact Hv.
  - apply tokenize_blank.
  - intros H. unfold create_rule. destruct s as [|c s]; [reflexivity|].
    cbn [nonempty negb]. rewrite (tokenize_blank _ H). reflexivity.
Qed.

Lemma create_rule_blank_witness :
  create_rule "   " = Raise (ValueError "rule_string did not produce any tokens").
Proof.
  apply (proj2 (create_rule_blank "   ")). vm_compute. reflexivity.
Defined.

(** The fuel of [re_split_from] does not matter once it covers the text. *)
Lemma re_split_from_fuel r fuel1 : forall fuel2 s gap,
  (String.length s <= fuel1)%nat -> (String.length s <= fuel2)%nat ->
  re_split_from fuel1 r s gap = re_split_from fuel2 r s gap.
Proof.
  induction fuel1 as [|fuel1 IH]; intros fuel2 s gap H1 H2.
  - destruct s; [destruct fuel2; reflexivity|cbn in H1; lia].
  - destruct s as [|c s]; [destruct fuel2; reflexivity|].
    destruct fuel2 as [|fuel2]; [cbn in H2; lia|].
    cbn [re_split_from]. cbn [String.length] in H1, H2.
    rewrite (IH fuel2 s) by lia.
    destruct (re_match r (String c s)) as [rest|]; [|reflexivity].
    destruct (String.length rest <? String.length (String c s))%nat eqn:Hlt;
      [|reflexivity].
    apply Nat.ltb_lt in Hlt. cbn [String.length] in Hlt.
    rewrite (IH fuel2 rest) by lia. reflexivity.
Qed.

(** One step of [re.split] at a match. *)
Lemma re_split_from_match r fuel m rest gap :
  m <> "" ->
  (String.length (m +:+ rest) <= fuel)%nat ->
  re_match r (m +:+ rest) = Some rest ->
  re_split_from fuel r (m +:+ rest) gap = gap :: m :: re_split r rest.
Proof.
  intros Hm Hfuel Hmatch.
  destruct m as [|c m]; [congruence|]. rewrite app_cons in *.
  destruct fuel as [|fuel]; [cbn in Hfuel; lia|].
  cbn [re_split_from]. rewrite Hmatch.
  cbn [String.length] in Hfuel. rewrite length_app_str in Hfuel.
  rewrite (proj2 (Nat.ltb_lt _ _)) by (cbn [String.length]; rewrite length_app_str; lia).
  rewrite <- app_cons, consumed_app. unfold re_split.
  rewrite (re_split_from_fuel r fuel (String.length rest)) by lia. reflexivity.
Qed.

Lemma tokenize_match m rest :
  nonempty (strip m) = true ->
  re_match token_pattern (m +:+ rest) = Some rest ->
  tokenize (m +:+ rest) = m :: tokenize rest.
Proof.
  intros Hm Hmatch. unfold tokenize, re_split at 1.
  rewrite re_split_from_match; [|intros ->; discriminate|lia|exact Hmatch].
  rewrite filter_cons_False by discriminate.
  rewrite filter_cons_True by exact Hm. reflexivity.
Qed.

(** X14: the keywords are cut off the front of any text, also of a longer
    word: a field whose name starts with OR or AND is never one token. *)
Theorem tokenize_keyword_prefix rest :
  tokenize ("OR" +:+ rest) = "OR" :: tokenize rest
  /\ tokenize ("AND" +:+ rest) = "AND" :: tokenize rest.
Proof. split; apply tokenize_match; reflexivity. Qed.

(** ** A single comparison, from the text to the result *)

Lemma ident_start_class c :
  Chr.ident_start c = true ->
  Chr.is_space c = false /\ Chr.paren_or_cmp c = false /\ Chr.ident_char c = true.
Proof. by_cases_on_char c. Qed.

Lemma not_ident_char_class c :
  Chr.ident_char c = false ->
  Chr.only "N" c = false /\ Chr.only "D" c = false /\ Chr.only "R" c = false
  /\ Chr.only "A" c = false /\ Chr.only "O" c = false.
Proof. by_cases_on_char c. Qed.


Lemma drop_while_all p a b :
  all_chars p a = true -> drop_while p (a +:+ b) = drop_while p b.
Proof.
  intros Ha. induction a as [|c a IH]; [reflexivity|]. rewrite app_cons. cbn in *.
  apply andb_true_iff in Ha as [-> Ha]. auto.
Qed.

(** No keyword at the front of an identifier that does not start with it,
    when a character that is not of identifiers follows. *)
Lemma keyword_miss f x rest :
  Chr.ident_char x = false ->
  String.prefix "AND" f = false -> String.prefix "OR" f = false ->
  re_k (Word "AND") (f +:+ String x rest) Some = None
  /\ re_k (Word "OR") (f +:+ String x rest) Some = None.
Proof.
  intros Hx Hand Hor. destruct (not_ident_char_class _ Hx) as (HN & HD & HR & HA & HO).
  destruct f as [|c1 f].
  { rewrite app_empty_l. cbn. rewrite HA, HO. split; reflexivity. }
  rewrite app_cons. split.
  - cbn. destruct (Chr.only "A" c1) eqn:H1; [|reflexivity].
    apply Ascii.eqb_eq in H1 as ->.
    destruct f as [|c2 f]; [rewrite app_empty_l, HN; reflexivity|].
    rewrite app_cons. destruct (Chr.only "N" c2) eqn:H2; [|reflexivity].
    apply Ascii.eqb_eq in H2 as ->.
    destruct f as [|c3 f]; [rewrite app_empty_l, HD; reflexivity|].
    rewrite app_cons. destruct (Chr.only "D" c3) eqn:H3; [|reflexivity].
    apply Ascii.eqb_eq in H3 as ->. destruct f; vm_compute in Hand; discriminate Hand.
  - cbn. destruct (Chr.only "O" c1) eqn:H1; [|reflexivity].
    apply Ascii.eqb_eq in H1 as ->.
    destruct f as [|c2 f]; [rewrite app_empty_l, HR; reflexivity|].
    rewrite app_cons. destruct (Chr.only "R" c2) eqn:H2; [|reflexivity].
    apply Ascii.eqb_eq in H2 as ->. destruct f; vm_compute in Hor; discriminate Hor.
Qed.

(** An identifier free of keyword prefixes is one match of the pattern. *)
Lemma identifier_match f x rest :
  is_identifier f = true ->
  String.prefix "AND" f = false -> String.prefix "OR" f = false ->
  Chr.ident_char x = false ->
  re_match token_pattern (f +:+ String x rest) = Some (String x rest).
Proof.
  intros Hf Hand Hor Hx.
  destruct (keyword_miss f x rest Hx Hand Hor) as [Kand Kor].
  destruct f as [|c f']; [discriminate|]. cbn [is_identifier] in Hf.
  apply andb_true_iff in Hf as [Hc Hf'].
  destruct (ident_start_class _ Hc) as (Hs & Hp & _).
  unfold re_match, token_pattern, lexeme_pattern.
  change (re_k (Alt ?a ?b) ?s ?k)
    with (match re_k a s k with Some y => Some y | None => re_k b s k end).
  assert (Hws : re_k (Plus Chr.is_space) (String c f' +:+ String x rest) Some = None).
  { rewrite app_cons. cbn. rewrite Hs. reflexivity. }
  rewrite Hws.
  change (re_k (Alt ?a ?b) ?s ?k)
    with (match re_k a s k with Some y => Some y | None => re_k b s k end).
  rewrite Kand.
  change (re_k (Alt ?a ?b) ?s ?k)
    with (match re_k a s k with Some y => Some y | None => re_k b s k end).
  rewrite Kor.
  change (re_k (Alt ?a ?b) ?s ?k)
    with (match re_k a s k with Some y => Some y | None => re_k b s k end).
  assert (Hpc : re_k (Seq (Cls Chr.paren_or_cmp) (Opt (Lit "=")))
                  (String c f' +:+ String x rest) Some = None).
  { rewrite app_cons. cbn. rewrite Hp. reflexivity. }
  rewrite Hpc.
  change (re_k (Alt ?a ?b) ?s ?k)
    with (match re_k a s k with Some y => Some y | None => re_k b s k end).
  assert (Hid : re_k ident_pattern (String c f' +:+ String x rest) Some
                = Some (String x rest)).
  { rewrite app_cons. unfold ident_pattern. cbn [re_k]. rewrite Hc.
    rewrite star_greedy_drop_total by eauto.
    rewrite drop_while_all by exact Hf'. cbn. rewrite Hx. reflexivity. }
  rewrite Hid. reflexivity.
Qed.

Lemma tokenize_blank_match m rest :
  m <> "" -> strip m = "" ->
  re_match token_pattern (m +:+ rest) = Some rest ->
  tokenize (m +:+ rest) = tokenize rest.
Proof.
  intros Hne Hm Hmatch. unfold tokenize, re_split at 1.
  rewrite re_split_from_match; [|exact Hne|lia|exact Hmatch].
  rewrite filter_cons_False by discriminate.
  rewrite filter_cons_False by (rewrite Hm; discriminate). reflexivity.
Qed.

Lemma space_match x rest :
  Chr.is_space x = false ->
  re_match token_pattern (" " +:+ String x rest) = Some (String x rest).
Proof.
  intros Hx. unfold re_match, token_pattern.
  change (" " +:+ String x rest) with (String " " (String x rest)).
  cbn [re_k Plus star_greedy]. change (Chr.is_space " ") with true. cbn iota.
  rewrite Hx. reflexivity.
Qed.




Lemma identifier_visible f : is_identifier f = true -> nonempty (strip f) = true.
Proof.
  destruct f as [|c f]; [discriminate|]. cbn [is_identifier]. intros H.
  apply andb_true_iff in H as [Hc _]. destruct (ident_start_class _ Hc) as (Hs & _).
  unfold strip. cbn [lstrip]. rewrite Hs.
  pose proof (rstrip_visible c f Hs). destruct (rstrip (String c f)); [congruence|reflexivity].
Qed.



Lemma drop_while_stop p c s : p c = false -> drop_while p (String c s) = String c s.
Proof. intros H. cbn. rewrite H. reflexivity. Qed.

(** A text made of the parts of a condition, in order, is matched part by
    part. *)
Lemma scan_condition_parts c f' w1 o e w2 l0 lit' rest :
  Chr.ident_start c = true -> all_chars Chr.ident_char f' = true ->
  all_chars Chr.is_space w1 = true ->
  Chr.cmp_char o = true -> e = "" \/ e = "=" ->
  all_chars Chr.is_space w2 = true ->
  Chr.is_space l0 = false -> Chr.only "=" l0 = false ->
  scan_literal (String l0 lit' +:+ rest) = Some rest ->
  scan_condition
    (String c f' +:+ w1 +:+ String o e +:+ w2 +:+ String l0 lit' +:+ rest)
  = Some (String c f', String o e, String l0 lit', rest).
Proof.
  intros Hc Hf Hw1 Ho He Hw2 Hl0 Hl0eq Hlit.
  assert (Hoid : Chr.ident_char o = false /\ Chr.is_space o = false).
  { revert Ho. clear. by_cases_on_char o. }
  destruct Hoid as [Hoi Hos].
  set (t4 := String l0 lit' +:+ rest) in *.
  set (t3 := w2 +:+ t4).
  set (t2 := String o e +:+ t3).
  set (t1 := w1 +:+ t2).
  assert (D1 : drop_while Chr.ident_char (f' +:+ t1) = t1).
  { rewrite drop_while_all by exact Hf. subst t1 t2.
    destruct w1 as [|x w1]; [rewrite app_empty_l, app_cons; apply drop_while_stop, Hoi|].
    rewrite app_cons. apply drop_while_stop. cbn in Hw1.
    apply andb_true_iff in Hw1 as [Hx _]. revert Hx. clear. by_cases_on_char x. }
  assert (D2 : drop_while Chr.is_space t1 = String o (e +:+ t3)).
  { subst t1 t2. rewrite drop_while_all by exact Hw1. rewrite app_cons.
    apply drop_while_stop, Hos. }
  assert (D3 : skip_eq (e +:+ t3) = t3).
  { destruct He as [-> | ->]; [|reflexivity]. rewrite app_empty_l. subst t3 t4.
    destruct w2 as [|x w2]; [rewrite app_empty_l, app_cons; cbn; rewrite Hl0eq; reflexivity|].
    rewrite app_cons. cbn in Hw2 |- *. apply andb_true_iff in Hw2 as [Hx _].
    assert (Chr.only "=" x = false) as -> by (revert Hx; clear; by_cases_on_char x).
    reflexivity. }
  assert (D4 : drop_while Chr.is_space t3 = t4).
  { subst t3 t4. rewrite drop_while_all by exact Hw2. rewrite app_cons.
    apply drop_while_stop, Hl0. }
  unfold scan_condition. rewrite app_cons, Hc. cbv zeta.
  fold t4 t3 t2 t1. rewrite D1, D2, Ho, D3, D4, Hlit.
  replace (consumed (String c (f' +:+ t1)) t1) with (String c f')
    by (rewrite <- app_cons, consumed_app; reflexivity).
  replace (consumed (String o (e +:+ t3)) t3) with (String o e)
    by (rewrite <- app_cons, consumed_app; reflexivity).
  subst t4. rewrite consumed_app. reflexivity.
Qed.












(** ** A comparison with a quoted literal *)

Lemma quotable_split q v :
  quotable q v = true ->
  all_chars (Chr.except q) v = true /\ all_chars not_newline v = true.
Proof.
  unfold quotable. induction v as [|c v IH]; [auto|]. cbn. intros H.
  apply andb_true_iff in H as [Hc Hv]. apply andb_true_iff in Hc as [-> ->].
  destruct (IH Hv) as [-> ->]. auto.
Qed.

Lemma scan_quote_quotable q v rest :
  quotable q v = true -> scan_quote q (v +:+ String q rest) = Some rest.
Proof.
  unfold quotable. induction v as [|c v IH].
  - intros _. rewrite app_empty_l. cbn. unfold Chr.only. rewrite Ascii.eqb_refl. reflexivity.
  - rewrite app_cons. cbn. intros H. apply andb_true_iff in H as [Hc Hv].
    apply andb_true_iff in Hc as [Hq Hn]. unfold Chr.except in Hq.
    apply negb_true_iff in Hq. unfold Chr.only. rewrite Hq, Hn. apply IH, Hv.
Qed.

Lemma quoted_alternative q v rest :
  quotable q v = true ->
  re_k (Seq (Lit q) (Seq (Star (Chr.except q)) (Lit q)))
       (String q (v +:+ String q rest)) Some
  = Some rest.
Proof.
  intros Hv. destruct (quotable_split _ _ Hv) as [Hex _].
  change (re_k (Seq (Lit q) (Seq (Star (Chr.except q)) (Lit q)))
            (String q (v +:+ String q rest)) Some)
    with (if Chr.only q q
          then star_greedy (Chr.except q) (v +:+ String q rest)
                 (fun s => re_k (Lit q) s Some)
          else None).
  unfold Chr.only at 1. rewrite Ascii.eqb_refl.
  rewrite star_greedy_drop.
  - rewrite drop_while_all by exact Hex.
    rewrite drop_while_stop
      by (unfold Chr.except; rewrite Ascii.eqb_refl; reflexivity).
    cbn. unfold Chr.only. rewrite Ascii.eqb_refl. reflexivity.
  - intros c t Hc. cbn. unfold Chr.except in Hc. apply negb_true_iff in Hc.
    unfold Chr.only. rewrite Hc. reflexivity.
Qed.

Lemma quoted_match q v rest :
  q = Chr.squote \/ q = Chr.dquote ->
  quotable q v = true ->
  re_match token_pattern (quote q v +:+ rest) = Some rest.
Proof.
  intros Hq Hv. pose proof (quoted_alternative q v rest Hv) as Hquoted.
  unfold quote. rewrite app_cons, app_assoc_str, app_cons, app_empty_l.
  unfold re_match, token_pattern, lexeme_pattern, ident_pattern, quoted_pattern.
  remember (Seq (Lit Chr.squote) (Seq (Star (Chr.except Chr.squote)) (Lit Chr.squote)))
    as A eqn:EA.
  remember (Seq (Lit Chr.dquote) (Seq (Star (Chr.except Chr.dquote)) (Lit Chr.dquote)))
    as B eqn:EB.
  destruct Hq as [-> | ->]; cbn.
  - rewrite EA, Hquoted. reflexivity.
  - assert (HA : re_k A (String Chr.dquote (v +:+ String Chr.dquote rest)) Some = None)
      by (rewrite EA; reflexivity).
    rewrite HA, EB, Hquoted. reflexivity.
Qed.

Lemma quote_visible q v :
  q = Chr.squote \/ q = Chr.dquote -> nonempty (strip (quote q v)) = true.
Proof.
  intros Hq. unfold quote, strip. cbn [lstrip].
  assert (Hs : Chr.is_space q = false) by (destruct Hq as [-> | ->]; reflexivity).
  rewrite Hs. pose proof (rstrip_visible q (v +:+ String q "") Hs).
  destruct (rstrip _); [congruence|reflexivity].
Qed.

(** The tokens of a comparison with a quoted literal, written with single
    spaces. *)
Lemma tokenize_quoted_comparison f op q v :
  is_identifier f = true ->
  String.prefix "AND" f = false -> String.prefix "OR" f = false ->
  In op comparators ->
  q = Chr.squote \/ q = Chr.dquote -> quotable q v = true ->
  tokenize (condition_of f op (quote q v)) = [f; op; quote q v].
Proof.
  intros Hf Hand Hor Hop Hq Hv. unfold condition_of.
  rewrite tokenize_match;
    [|apply identifier_visible, Hf|apply identifier_match; auto].
  f_equal.
  assert (Hs : Chr.is_space q = false) by (destruct Hq as [-> | ->]; reflexivity).
  assert (Htail : tokenize (" " +:+ quote q v) = [quote q v]).
  { rewrite tokenize_blank_match; [|discriminate|reflexivity|apply space_match, Hs].
    rewrite <- (app_empty_r (quote q v)) at 1.
    rewrite tokenize_match; [reflexivity|apply quote_visible, Hq|].
    apply quoted_match; assumption. }
  unfold comparators in Hop. cbn [In] in Hop.
  repeat (destruct Hop as [<-|Hop];
    [rewrite tokenize_blank_match; [|discriminate|reflexivity|reflexivity];
     rewrite tokenize_match; [|reflexivity|reflexivity];
     rewrite Htail; reflexivity|]).
  destruct Hop.
Qed.

Lemma condition_match_quoted f op q v :
  is_identifier f = true -> In op comparators ->
  q = Chr.squote \/ q = Chr.dquote -> quotable q v = true ->
  condition_match (condition_of f op (quote q v)) = Some (f, op, quote q v, "").
Proof.
  intros Hf Hop Hq Hv. rewrite condition_match_scan. unfold condition_of.
  destruct f as [|c f']; [discriminate|]. cbn [is_identifier] in Hf.
  apply andb_true_iff in Hf as [Hc Hf'].
  assert (Hcl : Chr.is_space q = false /\ Chr.only "=" q = false
                /\ Chr.is_digit q = false)
    by (destruct Hq as [-> | ->]; repeat split; reflexivity).
  destruct Hcl as (Hs & Heq & Hd).
  assert (Hlit : scan_literal (quote q v +:+ "") = Some "").
  { rewrite app_empty_r. unfold quote. cbn [scan_literal]. rewrite Hd.
    destruct Hq as [-> | ->].
    - change (Chr.only Chr.squote Chr.squote) with true. cbn iota.
      apply scan_quote_quotable, Hv.
    - change (Chr.only Chr.squote Chr.dquote) with false.
      change (Chr.only Chr.dquote Chr.dquote) with true. cbn iota.
      apply scan_quote_quotable, Hv. }
  assert (Hgen : forall o e, Chr.cmp_char o = true -> e = "" \/ e = "=" ->
    scan_condition (String c f' +:+ " " +:+ String o e +:+ " " +:+ quote q v)
    = Some (String c f', String o e, quote q v, "")).
  { intros o e Ho He.
    rewrite <- (app_empty_r (quote q v)) at 1. unfold quote in *.
    apply scan_condition_parts; auto. }
  unfold comparators in Hop. cbn [In] in Hop.
  repeat (destruct Hop as [<-|Hop]; [apply Hgen; auto|]).
  destruct Hop.
Qed.

Lemma ends_with_quote_snoc q v :
  q = Chr.squote \/ q = Chr.dquote -> ends_with_quote (v +:+ String q "") = true.
Proof.
  intros Hq. induction v as [|c v IH].
  - rewrite app_empty_l. destruct Hq as [-> | ->]; reflexivity.
  - rewrite app_cons. cbn [ends_with_quote].
    destruct (v +:+ String q "") eqn:E; [destruct v; discriminate E|exact IH].
Qed.

Lemma substring_drop_last v x :
  substring 0 (String.length v) (v +:+ String x "") = v.
Proof. apply substring_prefix. Qed.

Lemma slice_quote q v : slice_1_m1 (quote q v) = v.
Proof.
  unfold slice_1_m1, quote. cbn [String.length substring].
  rewrite length_app_str. cbn [String.length].
  replace (S (String.length v + 1) - 2)%nat with (String.length v) by lia.
  apply substring_prefix.
Qed.

(** The result of a comparison of a string field with a quoted literal. *)
Lemma evaluate_condition_quoted f op q v s data :
  is_identifier f = true -> In op comparators ->
  q = Chr.squote \/ q = Chr.dquote -> quotable q v = true ->
  data !! f = Some (VStr s) ->
  evaluate_condition (condition_of f op (quote q v)) data
  = Ok (order_test op (String.compare s v)).
Proof.
  intros Hf Hop Hq Hv Hdata. unfold evaluate_condition.
  rewrite (condition_match_quoted f op q v Hf Hop Hq Hv), Hdata.
  assert (Hsq : starts_with_quote (quote q v) = true)
    by (destruct Hq as [-> | ->]; reflexivity).
  assert (Heq : ends_with_quote (quote q v) = true).
  { unfold quote. cbn [ends_with_quote].
    destruct (v +:+ String q "") eqn:E; [destruct v; discriminate E|].
    rewrite <- E. apply ends_with_quote_snoc, Hq. }
  rewrite Hsq, Heq, slice_quote. cbn [andb coerce numeric mbind result_bind].
  unfold py_order. cbn [numeric].
  unfold comparators in Hop. cbn [In] in Hop.
  repeat (destruct Hop as [<-|Hop];
    [ match goal with
      | |- context [operators !! ?k] =>
          let r := eval vm_compute in (operators !! k) in
          change (operators !! k) with r
      end;
      unfold order_test; cbn [String.eqb Ascii.eqb Bool.eqb];
      destruct (String.compare s v); reflexivity
    |]).
  destruct Hop.
Qed.

(** X16: a comparison of a field with a quoted literal, written with single
    spaces, compiles, and on a record that holds a string for the field it
    evaluates to the comparison of the string with the text between the
    quotes, character by character: equality is exact, case included. *)
Theorem string_comparison f op q v s data :
  is_identifier f = true ->
  String.prefix "AND" f = false -> String.prefix "OR" f = false ->
  In op comparators ->
  q = Chr.squote \/ q = Chr.dquote -> quotable q v = true ->
  data !! f = Some (VStr s) ->
  create_rule (condition_of f op (quote q v))
  = Ok (operand_node (condition_of f op (quote q v)))
  /\ evaluate_rule (Some (operand_node (condition_of f op (quote q v)))) data
     = Ok (order_test op (String.compare s v))
  /\ (order_test "==" (String.compare s v) = true <-> s = v).
Proof.
  intros Hf Hand Hor Hop Hq Hv Hdata. split; [|split].
  - unfold create_rule.
    rewrite (tokenize_quoted_comparison f op q v Hf Hand Hor Hop Hq Hv).
    assert (Hne : nonempty (condition_of f op (quote q v)) = true).
    { unfold condition_of. destruct f; [discriminate|reflexivity]. }
    rewrite Hne. cbn [negb]. unfold parse.
    rewrite parse_loop_leaf, parse_loop_nil; [reflexivity|].
    split; [|split; [|split]].
    + destruct f as [|c f']; [discriminate|]. cbn [is_identifier] in Hf.
      apply andb_true_iff in Hf as [Hc _].
      unfold matches, re_match, ident_pattern. cbn [re_k]. rewrite Hc.
      destruct (star_greedy_total Chr.ident_char f' Some) as [x ->]; eauto.
    + unfold comparators in Hop. cbn [In] in Hop.
      repeat (destruct Hop as [<-|Hop]; [reflexivity|]). destruct Hop.
    + intros ->. discriminate Hand.
    + intros ->. discriminate Hor.
  - rewrite evaluate_rule_operand. apply evaluate_condition_quoted; assumption.
  - unfold order_test. cbn [String.eqb Ascii.eqb Bool.eqb].
    split.
    + destruct (String.compare s v) eqn:E; intros H; try discriminate H.
      apply String.compare_eq_iff, E.
    + intros ->. pose proof (String.compare_antisym v v) as Hanti.
      destruct (String.compare v v); [reflexivity|discriminate Hanti..].
Qed.

Lemma string_comparison_witness :
  create_rule "department == 'Sales'" = Ok (operand_node "department == 'Sales'")
  /\ evaluate_rule (Some (operand_node "department == 'Sales'"))
       (<["department" := VStr "Sales"]> ∅)
     = Ok true
  /\ (true = true <-> "Sales" = "Sales").
Proof.
  apply (string_comparison "department" "==" Chr.squote "Sales" "Sales");
    try (vm_compute; reflexivity).
  - unfold comparators. cbn [In]. auto 10.
  - left. reflexivity.
Defined.

(** ** Request handlers *)

Lemma evaluate_node_value_dict n d :
  evaluate_node_value n (VDict d) = evaluate_node n d.
Proof.
  induction n as [ty v l r IHl IHr] using Node_induction.
  cbn [evaluate_node_value evaluate_node].
  destruct l as [l|], r as [r|]; cbn [from_option] in IHl, IHr;
    rewrite ?IHl, ?IHr; reflexivity.
Qed.

Lemma create_rule_value_string s : create_rule_value (VStr s) = create_rule s.
Proof.
  unfold create_rule_value, create_rule. cbn [truthy].
  destruct (nonempty s); reflexivity.
Qed.

Lemma combine_loop_values_strings rules : forall acc printed,
  combine_loop_values (VStr <$> rules) acc = snd (combine_loop rules acc printed).
Proof.
  induction rules as [|rule rules IH]; intros acc printed; [reflexivity|].
  cbn [fmap list_fmap combine_loop_values combine_loop].
  change (list_fmap _ _ VStr rules) with (VStr <$> rules).
  rewrite create_rule_value_string.
  destruct (create_rule rule) as [t|[msg| | |]]; [destruct acc| | | |];
    try apply IH; reflexivity.
Qed.




(** X17: the tree that the route of [create_rule] answers for a rule that
    compiles, sent back as the [ast] of the route of [evaluate_rule] with a
    record that is not empty, is evaluated as [evaluate_rule] evaluates the
    compiled tree: 200 with the result, 400 with the message of a
    [ValueError], 500 for any other exception. *)
Theorem create_then_evaluate_routes s t d (created asked : gmap string pyval) :
  created !! "rule_string" = Some (VStr s) ->
  create_rule s = Ok t ->
  asked !! "ast" = Some (fst (create_rule_route (VDict created))) ->
  asked !! "data" = Some (VDict d) ->
  d <> ∅ ->
  snd (create_rule_route (VDict created)) = 200%Z
  /\ api_evaluate_rule (VDict asked) = evaluation_response (evaluate_rule (Some t) d).
Proof.
  intros Hs Ht Hast Hd Hne.
  assert (Hroute : create_rule_route (VDict created) = (VDict (to_dict t), 200%Z)).
  { unfold create_rule_route, json_get. rewrite Hs. cbn [default from_option id mbind result_bind].
    rewrite create_rule_value_string, Ht.
    destruct (truthy (VStr s)) eqn:Htruthy; [reflexivity|].
    unfold create_rule in Ht. cbn [truthy] in Htruthy. rewrite Htruthy in Ht.
    discriminate Ht. }
  rewrite Hroute in Hast |- *. split; [reflexivity|].
  unfold api_evaluate_rule, json_get. rewrite Hast, Hd.
  cbn [default from_option id mbind result_bind fst].
  rewrite to_dict_truthy.
  replace (truthy (VDict d)) with true
    by (cbn; rewrite bool_decide_eq_false_2 by exact Hne; reflexivity).
  cbn [negb orb].
  destruct (to_dict_lookup t) as (Hty & Hv & _).
  unfold lacks_required. rewrite Hty, Hv.
  rewrite !bool_decide_eq_true_2 by eauto. cbn [negb orb].
  rewrite json_to_node_to_dict. cbn [mbind result_bind].
  rewrite evaluate_node_value_dict. unfold evaluate_rule, evaluation_response, result_body.
  destruct (evaluate_node t d) as [b|[msg| | |]]; reflexivity.
Qed.

Lemma create_then_evaluate_routes_witness :
  snd (create_rule_route (VDict (<["rule_string" := VStr "age > 30"]> ∅))) = 200%Z
  /\ api_evaluate_rule
       (VDict (<["ast" := VDict (to_dict (operand_node "age > 30"))]>
               (<["data" := VDict (<["age" := VInt 31]> ∅)]> ∅)))
     = (result_body true, 200%Z).
Proof.
  destruct (create_then_evaluate_routes "age > 30" (operand_node "age > 30")
              (<["age" := VInt 31]> ∅)
              (<["rule_string" := VStr "age > 30"]> ∅)
              (<["ast" := VDict (to_dict (operand_node "age > 30"))]>
                 (<["data" := VDict (<["age" := VInt 31]> ∅)]> ∅)))
    as [Hcreated Hasked];
    try (vm_compute; reflexivity).
  - intros H. vm_compute in H. discriminate H.
  - split; [exact Hcreated|]. rewrite Hasked. vm_compute. reflexivity.
Defined.




(** A tree of the parser cannot be evaluated on anything but a map: the
    lookup of the first condition raises. *)
Lemma evaluate_node_value_not_dict t data :
  parsed t -> (forall d, data <> VDict d) ->
  exists e, evaluate_node_value t data = Raise e.
Proof.
  intros Ht Hdata. induction Ht as [condition|op l r Hop Hl [el IHl] Hr _].
  - cbn. unfold evaluate_condition_value.
    destruct data as [| | | | | |d]; [..|exfalso; exact (Hdata d eq_refl)];
      destruct (condition_match condition) as [[[[? ?] ?] ?]|]; eauto.
  - unfold operator_node. cbn [evaluate_node_value]. cbn [eq_str String.eqb Ascii.eqb Bool.eqb].
    rewrite IHl. cbn [mbind result_bind]. eauto.
Qed.

(** X20: when the route of [evaluate_rule] answers 200 for the
    serialization of a tree of the parser, the [data] of the request is a
    map that is not empty, [evaluate_rule] returns on it, and the answer
    holds its result.  A record that is a list, a string or a number, and
    the empty record, are never evaluated to a result. *)
Theorem evaluate_route_success (payload : gmap string pyval) t :
  parsed t ->
  payload !! "ast" = Some (VDict (to_dict t)) ->
  snd (api_evaluate_rule (VDict payload)) = 200%Z ->
  exists d b,
    payload !! "data" = Some (VDict d) /\ d <> ∅
    /\ evaluate_rule (Some t) d = Ok b
    /\ api_evaluate_rule (VDict payload) = (result_body b, 200%Z).
Proof.
  intros Ht Hast. unfold api_evaluate_rule, json_get. rewrite Hast.
  cbn [default from_option id mbind result_bind].
  destruct (truthy (default VNone (payload !! "data"))) eqn:Htruthy;
    [|cbn; discriminate].
  rewrite to_dict_truthy. cbn [negb orb].
  destruct (to_dict_lookup t) as (Hty & Hv & _).
  unfold lacks_required. rewrite Hty, Hv.
  rewrite !bool_decide_eq_true_2 by eauto. cbn [negb orb].
  rewrite json_to_node_to_dict. cbn [mbind result_bind].
  destruct (payload !! "data") as [data|] eqn:Hdata; [|discriminate Htruthy].
  cbn [default from_option id] in *.
  destruct (evaluate_node_value t data) as [b|e] eqn:Heval.
  - intros _. destruct data as [| | | | | |d];
      try (match type of Heval with
           | evaluate_node_value t ?v = _ =>
               destruct (evaluate_node_value_not_dict t v Ht) as [e He];
               [solve [intros ? [=]]|rewrite He in Heval; discriminate Heval]
           end).
    exists d, b. rewrite evaluate_node_value_dict in Heval.
    split; [reflexivity|]. split; [|split; [exact Heval|reflexivity]].
    intros ->. cbn [truthy] in Htruthy.
    rewrite bool_decide_eq_true_2 in Htruthy by reflexivity. discriminate Htruthy.
  - cbn [mbind result_bind]. destruct e; cbn; discriminate.
Qed.

Lemma evaluate_route_success_witness :
  exists d b,
    (<["ast" := VDict (to_dict (operand_node "age > 30"))]>
       (<["data" := VDict (<["age" := VInt 31]> ∅)]> ∅) : gmap string pyval)
      !! "data" = Some (VDict d)
    /\ d <> ∅
    /\ evaluate_rule (Some (operand_node "age > 30")) d = Ok b
    /\ api_evaluate_rule
         (VDict (<["ast" := VDict (to_dict (operand_node "age > 30"))]>
                 (<["data" := VDict (<["age" := VInt 31]> ∅)]> ∅)))
       = (result_body b, 200%Z).
Proof.
  apply (evaluate_route_success _ (operand_node "age > 30")).
  - constructor.
  - vm_compute. reflexivity.
  - vm_compute. reflexivity.
Defined.
